(** * weserv image API: the utility layer and the request boundary

    A shallow embedding of the helper functions of [weserv::api::utils]
    (src/api/utils/utility.h) and of the request boundary declared in
    src/api/api_manager_impl.h, with the properties the specification
    states about them.

    C++ [int] values are integers of [Z] with the 32-bit wrap-around
    written out; [enum class] types are inductive types, each inside a
    module of the enum's name; a [double] is a binary64 float; the metadata
    table of an image is a finite map from field names; a getter that
    throws returns [None].  What belongs to the image engine and is not
    fixed by the sources (its alpha test, its nicknames, its version) is a
    parameter, the class [Engine]. *)

From Stdlib Require Import ZArith Lia Bool List String Ascii.
From Stdlib Require Import DecimalString DecimalPos DecimalZ Floats.
From stdpp Require Import base option strings gmap.

Import ListNotations.
Local Open Scope Z_scope.

(* ================================================================== *)
(** ** Machine integers *)

(** Two's-complement reduction of [z] to a signed integer of [w] bits. *)
Definition wrap (w : Z) (z : Z) : Z :=
  (z + 2 ^ (w - 1)) mod 2 ^ w - 2 ^ (w - 1).

(** [std::numeric_limits<int>::min()] and [max()]. *)
Definition INT_MIN : Z := - 2 ^ 31.
Definition INT_MAX : Z := 2 ^ 31 - 1.

(** The values of type [int]. *)
Definition in_int (z : Z) : Prop := INT_MIN <= z <= INT_MAX.

Definition in_intb (z : Z) : bool := (INT_MIN <=? z) && (z <=? INT_MAX).

(** [static_cast<int>(t)] of a wider integer. *)
Definition int_cast (t : Z) : Z := wrap 32 t.

(** [a - b], [a * b] and [a / b] on [int]; division truncates towards zero. *)
Definition int_sub (a b : Z) : Z := wrap 32 (a - b).
Definition int_mul (a b : Z) : Z := wrap 32 (a * b).
Definition int_div (a b : Z) : Z := wrap 32 (Z.quot a b).

(** [static_cast<int64_t>(a) * b]. *)
Definition int64_mul (a b : Z) : Z := wrap 64 (a * b).

(* ================================================================== *)
(** ** mul_overflow *)

(** [__builtin_smul_overflow(a, b, result)]: the product is computed
    exactly, stored reduced to [int], and the call reports whether the
    stored value differs from the exact one. *)
Definition builtin_smul_overflow (a b : Z) : bool * Z :=
  let stored := wrap 32 (a * b) in
  (negb (stored =? a * b), stored).

(** [mul_overflow(a, b, result)]: the pair of the returned flag and the value
    left in [*result].  [have_builtin] is the preprocessor condition
    [__GNUC__ >= 5 || __has_builtin(__builtin_smul_overflow)]. *)
Definition mul_overflow (have_builtin : bool) (a b : Z) : bool * Z :=
  if have_builtin then builtin_smul_overflow a b
  else
    let t := int64_mul a b in
    let result := int_cast t in
    ((t >? INT_MAX) || (t <? INT_MIN), result).

(* ================================================================== *)
(** ** Enumerations *)

(** Modelled from the spec: [enums::Position] of enums.h, which is not among
    the sources.  The nine anchors of section 4.2 (centre, four edges, four
    corners), under the names [calculate_position] switches on; [Centre] is
    the anchor its [default] label is commented with. *)
Module Position.
Inductive t : Set :=
  | Centre | Top | Right | Bottom | Left
  | TopRight | BottomRight | BottomLeft | TopLeft.
End Position.

(** Modelled from the spec: [enums::ImageType] of enums.h, which is not among
    the sources.  The closed set of recognised formats of section 4.3 with
    its explicit unknown category, under the names [image_type_id]
    enumerates. *)
Module ImageType.
Inductive t : Set :=
  | Jpeg | Png | Webp | Tiff | Gif | Svg | Pdf | Heif | Magick | Unknown.
End ImageType.

(** Modelled from the spec: [enums::Output] of enums.h, which is not among the
    sources.  The five outputs utility.h names, and [Other] for any further
    enumerator the declaration has (the [default] labels of the switches
    below are what handles it). *)
Module Output.
Inductive t : Set :=
  | Jpeg | Webp | Tiff | Gif | Png
  | Other (tag : Z).
End Output.

(** libvips' [VipsAngle]. *)
Inductive VipsAngle : Set :=
  | VIPS_ANGLE_D0 | VIPS_ANGLE_D90 | VIPS_ANGLE_D180 | VIPS_ANGLE_D270.

(** libvips' [VipsInterpretation]. *)
Inductive VipsInterpretation : Set :=
  | VIPS_INTERPRETATION_ERROR
  | VIPS_INTERPRETATION_MULTIBAND
  | VIPS_INTERPRETATION_B_W
  | VIPS_INTERPRETATION_HISTOGRAM
  | VIPS_INTERPRETATION_XYZ
  | VIPS_INTERPRETATION_LAB
  | VIPS_INTERPRETATION_CMYK
  | VIPS_INTERPRETATION_LABQ
  | VIPS_INTERPRETATION_RGB
  | VIPS_INTERPRETATION_CMC
  | VIPS_INTERPRETATION_LCH
  | VIPS_INTERPRETATION_LABS
  | VIPS_INTERPRETATION_sRGB
  | VIPS_INTERPRETATION_YXY
  | VIPS_INTERPRETATION_FOURIER
  | VIPS_INTERPRETATION_RGB16
  | VIPS_INTERPRETATION_GREY16
  | VIPS_INTERPRETATION_MATRIX
  | VIPS_INTERPRETATION_scRGB
  | VIPS_INTERPRETATION_HSV.

Definition interpretation_eqb (x y : VipsInterpretation) : bool :=
  match x, y with
  | VIPS_INTERPRETATION_ERROR, VIPS_INTERPRETATION_ERROR
  | VIPS_INTERPRETATION_MULTIBAND, VIPS_INTERPRETATION_MULTIBAND
  | VIPS_INTERPRETATION_B_W, VIPS_INTERPRETATION_B_W
  | VIPS_INTERPRETATION_HISTOGRAM, VIPS_INTERPRETATION_HISTOGRAM
  | VIPS_INTERPRETATION_XYZ, VIPS_INTERPRETATION_XYZ
  | VIPS_INTERPRETATION_LAB, VIPS_INTERPRETATION_LAB
  | VIPS_INTERPRETATION_CMYK, VIPS_INTERPRETATION_CMYK
  | VIPS_INTERPRETATION_LABQ, VIPS_INTERPRETATION_LABQ
  | VIPS_INTERPRETATION_RGB, VIPS_INTERPRETATION_RGB
  | VIPS_INTERPRETATION_CMC, VIPS_INTERPRETATION_CMC
  | VIPS_INTERPRETATION_LCH, VIPS_INTERPRETATION_LCH
  | VIPS_INTERPRETATION_LABS, VIPS_INTERPRETATION_LABS
  | VIPS_INTERPRETATION_sRGB, VIPS_INTERPRETATION_sRGB
  | VIPS_INTERPRETATION_YXY, VIPS_INTERPRETATION_YXY
  | VIPS_INTERPRETATION_FOURIER, VIPS_INTERPRETATION_FOURIER
  | VIPS_INTERPRETATION_RGB16, VIPS_INTERPRETATION_RGB16
  | VIPS_INTERPRETATION_GREY16, VIPS_INTERPRETATION_GREY16
  | VIPS_INTERPRETATION_MATRIX, VIPS_INTERPRETATION_MATRIX
  | VIPS_INTERPRETATION_scRGB, VIPS_INTERPRETATION_scRGB
  | VIPS_INTERPRETATION_HSV, VIPS_INTERPRETATION_HSV => true
  | _, _ => false
  end.

(* ================================================================== *)
(** ** Pixel depth *)

Definition is_16_bit (interpretation : VipsInterpretation) : bool :=
  interpretation_eqb interpretation VIPS_INTERPRETATION_RGB16
  || interpretation_eqb interpretation VIPS_INTERPRETATION_GREY16.

Definition maximum_image_alpha (interpretation : VipsInterpretation) : Z :=
  if is_16_bit interpretation then 65535 else 255.

(* ================================================================== *)
(** ** Rotation, extension and output selection *)

Definition resolve_angle_rotation (angle : Z) : VipsAngle :=
  if angle =? 90 then VIPS_ANGLE_D90
  else if angle =? 180 then VIPS_ANGLE_D180
  else if angle =? 270 then VIPS_ANGLE_D270
  else VIPS_ANGLE_D0.

Definition determine_image_extension (output : Output.t) : string :=
  match output with
  | Output.Jpeg => ".jpg"
  | Output.Webp => ".webp"
  | Output.Tiff => ".tiff"
  | Output.Gif => ".gif"
  | Output.Png => ".png"
  | _ => ".png"
  end.

Definition to_output (image_type : ImageType.t) : Output.t :=
  match image_type with
  | ImageType.Jpeg => Output.Jpeg
  | ImageType.Webp => Output.Webp
  | ImageType.Tiff => Output.Tiff
  | ImageType.Gif => Output.Gif
  | ImageType.Png => Output.Png
  | _ => Output.Png
  end.

(** The outputs with a saver, and the extensions a saver may be handed. *)
Definition encodable_outputs : list Output.t :=
  [Output.Jpeg; Output.Webp; Output.Tiff; Output.Gif; Output.Png].

Definition allowed_extensions : list string :=
  [".jpg"; ".webp"; ".tiff"; ".gif"; ".png"]%string.

(* ================================================================== *)
(** ** calculate_position *)

(** The locals [left] and [top] start at 0 and each case of the switch
    assigns the ones it names. *)
Definition calculate_position
  (in_width in_height out_width out_height : Z) (pos : Position.t) : Z * Z :=
  let left := 0 in
  let top := 0 in
  match pos with
  | Position.Top =>
      let left := int_div (int_sub out_width in_width) 2 in
      (left, top)
  | Position.Right =>
      let left := int_sub out_width in_width in
      let top := int_div (int_sub out_height in_height) 2 in
      (left, top)
  | Position.Bottom =>
      let left := int_div (int_sub out_width in_width) 2 in
      let top := int_sub out_height in_height in
      (left, top)
  | Position.Left =>
      let top := int_div (int_sub out_height in_height) 2 in
      (left, top)
  | Position.TopRight =>
      let left := int_sub out_width in_width in
      (left, top)
  | Position.BottomRight =>
      let left := int_sub out_width in_width in
      let top := int_sub out_height in_height in
      (left, top)
  | Position.BottomLeft =>
      let top := int_sub out_height in_height in
      (left, top)
  | Position.TopLeft => (left, top)
  | _ =>
      let left := int_div (int_sub out_width in_width) 2 in
      let top := int_div (int_sub out_height in_height) 2 in
      (left, top)
  end.

(** The 3x3 anchor grid: the column and the row an anchor lies in. *)
Inductive grid_line : Set := Near | Middle | Far.

Definition column (pos : Position.t) : grid_line :=
  match pos with
  | Position.TopLeft | Position.Left | Position.BottomLeft => Near
  | Position.Top | Position.Centre | Position.Bottom => Middle
  | Position.TopRight | Position.Right | Position.BottomRight => Far
  end.

Definition row (pos : Position.t) : grid_line :=
  match pos with
  | Position.TopLeft | Position.Top | Position.TopRight => Near
  | Position.Left | Position.Centre | Position.Right => Middle
  | Position.BottomLeft | Position.Bottom | Position.BottomRight => Far
  end.

(** The share of the surplus [outer - inner] an anchor line takes: none,
    half of it (rounded towards zero) or all of it. *)
Definition grid_offset (line : grid_line) (inner outer : Z) : Z :=
  match line with
  | Near => 0
  | Middle => Z.quot (outer - inner) 2
  | Far => outer - inner
  end.

(* ================================================================== *)
(** ** Loader names *)

(** [s.rfind(p, pos)] of [std::string]: the greatest index not above [pos]
    at which [p] occurs in [s]; [None] is [npos]. *)
Fixpoint rfind_from (s p : string) (i : nat) : option nat :=
  if String.eqb (substring i (String.length p) s) p then Some i
  else
    match i with
    | O => None
    | S j => rfind_from s p j
    end.

Definition rfind (s p : string) (pos : nat) : option nat :=
  if (String.length s <? String.length p)%nat then None
  else rfind_from s p (Nat.min pos (String.length s - String.length p)).

(** The test [s.rfind(p, 0) == 0]. *)
Definition rfind0_is_0 (s p : string) : bool :=
  match rfind s p 0 with
  | Some O => true
  | _ => false
  end.

Definition determine_image_type (loader : string) : ImageType.t :=
  if rfind0_is_0 loader "VipsForeignLoadJpeg" then ImageType.Jpeg
  else if rfind0_is_0 loader "VipsForeignLoadPng" then ImageType.Png
  else if rfind0_is_0 loader "VipsForeignLoadWebp" then ImageType.Webp
  else if rfind0_is_0 loader "VipsForeignLoadTiff" then ImageType.Tiff
  else if rfind0_is_0 loader "VipsForeignLoadGif" then ImageType.Gif
  else if rfind0_is_0 loader "VipsForeignLoadSvg" then ImageType.Svg
  else if rfind0_is_0 loader "VipsForeignLoadPdf" then ImageType.Pdf
  else if rfind0_is_0 loader "VipsForeignLoadHeif" then ImageType.Heif
  else if rfind0_is_0 loader "VipsForeignLoadMagick" then ImageType.Magick
  else ImageType.Unknown.

Definition image_loader_supports_page (loader : string) : bool :=
  rfind0_is_0 loader "VipsForeignLoadPdf"
  || rfind0_is_0 loader "VipsForeignLoadGif"
  || rfind0_is_0 loader "VipsForeignLoadTiff"
  || rfind0_is_0 loader "VipsForeignLoadWebp"
  || rfind0_is_0 loader "VipsForeignLoadHeif"
  || rfind0_is_0 loader "VipsForeignLoadMagick".

Definition image_type_id (image_type : ImageType.t) : string :=
  match image_type with
  | ImageType.Jpeg => "jpeg"
  | ImageType.Png => "png"
  | ImageType.Webp => "webp"
  | ImageType.Tiff => "tiff"
  | ImageType.Gif => "gif"
  | ImageType.Svg => "svg"
  | ImageType.Pdf => "pdf"
  | ImageType.Heif => "heif"
  | ImageType.Magick => "magick"
  | ImageType.Unknown => "unknown"
  end.

Definition support_alpha_channel (image_type : ImageType.t) : bool :=
  match image_type with
  | ImageType.Png | ImageType.Webp | ImageType.Tiff | ImageType.Gif => true
  | _ => false
  end.

(** The nine recognised loader prefixes with the image type of each. *)
Definition loader_prefixes : list (string * ImageType.t) :=
  [("VipsForeignLoadJpeg", ImageType.Jpeg);
   ("VipsForeignLoadPng", ImageType.Png);
   ("VipsForeignLoadWebp", ImageType.Webp);
   ("VipsForeignLoadTiff", ImageType.Tiff);
   ("VipsForeignLoadGif", ImageType.Gif);
   ("VipsForeignLoadSvg", ImageType.Svg);
   ("VipsForeignLoadPdf", ImageType.Pdf);
   ("VipsForeignLoadHeif", ImageType.Heif);
   ("VipsForeignLoadMagick", ImageType.Magick)]%string.

(* ================================================================== *)
(** ** Images *)

(** libvips' [VipsBandFormat]. *)
Inductive VipsBandFormat : Set :=
  | VIPS_FORMAT_NOTSET
  | VIPS_FORMAT_UCHAR | VIPS_FORMAT_CHAR
  | VIPS_FORMAT_USHORT | VIPS_FORMAT_SHORT
  | VIPS_FORMAT_UINT | VIPS_FORMAT_INT
  | VIPS_FORMAT_FLOAT | VIPS_FORMAT_COMPLEX
  | VIPS_FORMAT_DOUBLE | VIPS_FORMAT_DPCOMPLEX.

(** The kinds of value a metadata field of an image holds, for the fields
    this file reads: an [int], a string, an array of [int], a blob. *)
Inductive meta_value : Type :=
  | MetaInt (value : Z)
  | MetaString (value : string)
  | MetaArrayInt (values : list Z)
  | MetaBlob (data : list Byte.byte).

(** The [GType] of a field, as [get_typeof] reports it; [None] stands for 0,
    the answer for a field the image does not have. *)
Inductive GType : Set :=
  | G_TYPE_INT | VIPS_TYPE_REF_STRING | VIPS_TYPE_ARRAY_INT | VIPS_TYPE_BLOB.

(** What [VImage] exposes of an image: the header fields, the pixels as one
    plane of samples per band, and the metadata table keyed by field name. *)
Record VImage : Type := {
  width : Z;
  height : Z;
  interpretation : VipsInterpretation;
  format : VipsBandFormat;
  xres : float;
  planes : list (list Z);
  metadata : gmap string meta_value
}.

Definition bands (image : VImage) : Z := Z.of_nat (length (planes image)).

Definition type_of_value (v : meta_value) : GType :=
  match v with
  | MetaInt _ => G_TYPE_INT
  | MetaString _ => VIPS_TYPE_REF_STRING
  | MetaArrayInt _ => VIPS_TYPE_ARRAY_INT
  | MetaBlob _ => VIPS_TYPE_BLOB
  end.

Definition get_typeof (image : VImage) (name : string) : option GType :=
  type_of_value <$> metadata image !! name.

(** The comparison [!= 0] of a [GType]. *)
Definition nonzero (type : option GType) : bool :=
  match type with
  | Some _ => true
  | None => false
  end.

(** The typed getters; [None] is the [VError] they throw when the field is
    missing or holds a value of another kind. *)
Definition get_int (image : VImage) (name : string) : option Z :=
  match metadata image !! name with
  | Some (MetaInt value) => Some value
  | _ => None
  end.

Definition get_string (image : VImage) (name : string) : option string :=
  match metadata image !! name with
  | Some (MetaString value) => Some value
  | _ => None
  end.

Definition get_array_int (image : VImage) (name : string) : option (list Z) :=
  match metadata image !! name with
  | Some (MetaArrayInt values) => Some values
  | _ => None
  end.

(** The names libvips gives the metadata fields. *)
Definition VIPS_META_ICC_NAME : string := "icc-profile-data".
Definition VIPS_META_N_PAGES : string := "n-pages".
Definition VIPS_META_PAGE_HEIGHT : string := "page-height".
Definition VIPS_META_ORIENTATION : string := "orientation".

(** What the functions below take from the engine as given: its test for an
    alpha channel, its operation [bandjoin_const], which joins constant
    bands to an image, the nicknames of its enumeration values, and the
    version numbers of its headers. *)
Class Engine : Type := {
  has_alpha : VImage -> bool;
  bandjoin_const : VImage -> list Z -> VImage;
  interpretation_nick : VipsInterpretation -> string;
  band_format_nick : VipsBandFormat -> string;
  VIPS_MAJOR_VERSION : Z;
  VIPS_MINOR_VERSION : Z;
  VIPS_MICRO_VERSION : Z
}.

(** [VIPS_VERSION_AT_LEAST(major, minor, patch)]. *)
Definition VIPS_VERSION_AT_LEAST `{Engine} (major minor patch : Z) : bool :=
  (major <? VIPS_MAJOR_VERSION)
  || ((major =? VIPS_MAJOR_VERSION) && (minor <? VIPS_MINOR_VERSION))
  || ((major =? VIPS_MAJOR_VERSION) && (minor =? VIPS_MINOR_VERSION)
      && (patch <=? VIPS_MICRO_VERSION)).

Definition has_profile (image : VImage) : bool :=
  nonzero (get_typeof image VIPS_META_ICC_NAME).

Definition has_density (image : VImage) : bool :=
  (1 <? xres image)%float.

(** The integer [std::round(x)] denotes: the nearest one, halves going away
    from zero; there is none for a NaN or an infinity. *)
Definition round_to_Z (x : float) : option Z :=
  match Prim2SF x with
  | S754_zero _ => Some 0
  | S754_finite negative m e =>
      let magnitude :=
        if 0 <=? e then Z.pos m * 2 ^ e
        else (2 * Z.pos m + 2 ^ (- e)) / (2 * 2 ^ (- e)) in
      Some (if negative then - magnitude else magnitude)
  | _ => None
  end.

(** [static_cast<int>] of the [double] that [std::round] returns, given as
    the integer it denotes, if any.  C++ leaves the conversion undefined
    for a value that is not one of [int]; the conversion instruction of
    x86-64 answers [INT_MIN] there, for a NaN and an infinity as well, and
    no error is raised. *)
Definition double_to_int (rounded : option Z) : Z :=
  match rounded with
  | Some z => if in_intb z then z else INT_MIN
  | None => INT_MIN
  end.

(** Pixels per millimetre as pixels per inch; the factor is 25.4 as a
    [double]. *)
Definition get_density (image : VImage) : Z :=
  double_to_int (round_to_Z (xres image * 0x1.9666666666666p+4)%float).

(** Modelled from the spec: [vips_image_get_page_height], the function of the
    image engine that [get_page_height] forwards to; the engine is not among
    the sources.  Section 4.2: the declared page height if present and
    plausible (greater than zero and no larger than the total image height),
    else the full image height. *)
Definition vips_image_get_page_height (image : VImage) : Z :=
  match get_int image VIPS_META_PAGE_HEIGHT with
  | Some page_height =>
      if (0 <? page_height) && (page_height <=? height image)
      then page_height
      else height image
  | None => height image
  end.

Definition get_page_height (image : VImage) : Z :=
  vips_image_get_page_height image.

(** A missing orientation reads as 0; one of another kind makes [get_int]
    throw. *)
Definition exif_orientation (image : VImage) : option Z :=
  if nonzero (get_typeof image VIPS_META_ORIENTATION)
  then get_int image VIPS_META_ORIENTATION
  else Some 0.


(* ================================================================== *)
(** ** The JSON report *)

(** What [image_to_json] writes to its stream: a sequence of members, each a
    key with a value that is a string, a number, a boolean or an array of
    numbers. *)
Inductive json_value : Type :=
  | JString (s : string)
  | JNumber (z : Z)
  | JBool (b : bool)
  | JArray (items : list Z).

Definition json_member : Type := string * json_value.

(** [operator<<] of an [int]. *)
Definition show_int (z : Z) : string := NilZero.string_of_int (Z.to_int z).

Definition dquote : string := String (ascii_of_nat 34) EmptyString.

(** The text of a value; a string goes between quotes as it is. *)
Definition render_value (v : json_value) : string :=
  match v with
  | JString s => dquote +:+ s +:+ dquote
  | JNumber z => show_int z
  | JBool b => if b then "true" else "false"
  | JArray items => "[" +:+ String.concat "," (map show_int items) +:+ "]"
  end.

Definition render_member (m : json_member) : string :=
  dquote +:+ fst m +:+ dquote +:+ ":" +:+ render_value (snd m).

(** [json.str()]: the members between braces, separated by commas. *)
Definition render_object (members : list json_member) : string :=
  "{" +:+ String.concat "," (map render_member members) +:+ "}".

(** An unconditional write of a member. *)
Definition put (json : list json_member) (key : string) (value : json_value)
  : list json_member :=
  json ++ [(key, value)].

(** A write under [if (cond)], with a value whose getter may throw. *)
Definition put_if (cond : bool) (key : string) (value : option json_value)
  (json : list json_member) : option (list json_member) :=
  if cond then v ← value; Some (put json key v) else Some json.

(** What a guarded write leaves in the stream. *)
Definition written (cond : bool) (key : string) (value : option json_value)
  : list json_member :=
  if cond then match value with Some v => [(key, v)] | None => [] end else [].

(** The fields the animation members are read from, by engine version. *)
Definition loop_field `{Engine} : string :=
  if VIPS_VERSION_AT_LEAST 8 9 0 then "loop" else "gif-loop".

Definition delay_field `{Engine} : string :=
  if VIPS_VERSION_AT_LEAST 8 9 0 then "delay" else "gif-delay".

(** The delays in milliseconds: the array as it is from 8.9 on, and before
    that the single GIF delay, which is in centiseconds. *)
Definition delay_value `{Engine} (image : VImage) : option json_value :=
  if VIPS_VERSION_AT_LEAST 8 9 0
  then JArray <$> get_array_int image "delay"
  else (fun delay => JArray [int_mul delay 10]) <$> get_int image "gif-delay".

Definition image_to_json_members `{Engine}
  (image : VImage) (image_type : ImageType.t) : option (list json_member) :=
  let json := [] in
  let json := put json "format" (JString (image_type_id image_type)) in
  let json := put json "width" (JNumber (width image)) in
  let json := put json "height" (JNumber (height image)) in
  let json :=
    put json "space" (JString (interpretation_nick (interpretation image))) in
  let json := put json "channels" (JNumber (bands image)) in
  let json := put json "depth" (JString (band_format_nick (format image))) in
  json ← put_if (has_density image) "density"
           (Some (JNumber (get_density image))) json;
  json ← put_if (nonzero (get_typeof image "jpeg-chroma-subsample"))
           "chromaSubsampling"
           (JString <$> get_string image "jpeg-chroma-subsample") json;
  let json :=
    put json "isProgressive" (JBool (nonzero (get_typeof image "interlaced"))) in
  json ← put_if (nonzero (get_typeof image "palette-bit-depth"))
           "paletteBitDepth"
           (JNumber <$> get_int image "palette-bit-depth") json;
  json ← put_if (nonzero (get_typeof image VIPS_META_N_PAGES)) "pages"
           (JNumber <$> get_int image VIPS_META_N_PAGES) json;
  json ← put_if (nonzero (get_typeof image VIPS_META_PAGE_HEIGHT)) "pageHeight"
           (JNumber <$> get_int image VIPS_META_PAGE_HEIGHT) json;
  json ← put_if (nonzero (get_typeof image loop_field)) "loop"
           (JNumber <$> get_int image loop_field) json;
  json ← put_if (nonzero (get_typeof image delay_field)) "delay"
           (delay_value image) json;
  json ← put_if (nonzero (get_typeof image "heif-primary")) "pagePrimary"
           (JNumber <$> get_int image "heif-primary") json;
  let json := put json "hasProfile" (JBool (has_profile image)) in
  let json := put json "hasAlpha" (JBool (has_alpha image)) in
  orientation ← exif_orientation image;
  Some (put json "orientation" (JNumber orientation)).

Definition image_to_json `{Engine}
  (image : VImage) (image_type : ImageType.t) : option string :=
  render_object <$> image_to_json_members image image_type.

(** The keys of the members written, in order. *)
Definition member_keys (members : list json_member) : list string :=
  map fst members.

(** The members every report has. *)
Definition required_keys : list string :=
  ["format"; "width"; "height"; "space"; "channels"; "depth";
   "isProgressive"; "hasProfile"; "hasAlpha"; "orientation"]%string.

(** A field is present on an image when its metadata table has it. *)
Definition field_present (image : VImage) (name : string) : Prop :=
  is_Some (metadata image !! name).

(** The value a report gives a key: that of the first member of the key. *)
Fixpoint lookup_member (key : string) (members : list json_member)
  : option json_value :=
  match members with
  | [] => None
  | (k, v) :: rest => if String.eqb key k then Some v else lookup_member key rest
  end.

(** The facts of an image behind the optional members: for each key, the
    value the image has for it, if it has one. *)
Definition optional_facts `{Engine} (image : VImage)
  : list (string * option json_value) :=
  [("density",
    if has_density image then Some (JNumber (get_density image)) else None);
   ("paletteBitDepth", JNumber <$> get_int image "palette-bit-depth");
   ("pages", JNumber <$> get_int image VIPS_META_N_PAGES);
   ("pageHeight", JNumber <$> get_int image VIPS_META_PAGE_HEIGHT);
   ("loop", JNumber <$> get_int image loop_field);
   ("delay", delay_value image);
   ("pagePrimary", JNumber <$> get_int image "heif-primary")]%string.

(** The first of two optional values that is there. *)
Definition first_some {A : Type} (x y : option A) : option A :=
  match x with
  | Some _ => x
  | None => y
  end.

(** Membership and distinctness of keys, decided. *)
Definition key_in (key : string) (keys : list string) : bool :=
  existsb (String.eqb key) keys.

Fixpoint distinct_keys (keys : list string) : bool :=
  match keys with
  | [] => true
  | k :: rest => negb (key_in k rest) && distinct_keys rest
  end.

(** When every getter the report calls has a value to return: each field
    read is of the kind its getter reads. *)
Definition report_defined `{Engine} (image : VImage) : Prop :=
  (field_present image "jpeg-chroma-subsample" ->
   is_Some (get_string image "jpeg-chroma-subsample")) /\
  (field_present image "palette-bit-depth" ->
   is_Some (get_int image "palette-bit-depth")) /\
  (field_present image VIPS_META_N_PAGES ->
   is_Some (get_int image VIPS_META_N_PAGES)) /\
  (field_present image VIPS_META_PAGE_HEIGHT ->
   is_Some (get_int image VIPS_META_PAGE_HEIGHT)) /\
  (field_present image loop_field -> is_Some (get_int image loop_field)) /\
  (field_present image delay_field -> is_Some (delay_value image)) /\
  (field_present image "heif-primary" ->
   is_Some (get_int image "heif-primary")) /\
  (field_present image VIPS_META_ORIENTATION ->
   is_Some (get_int image VIPS_META_ORIENTATION)).

(* ================================================================== *)
(** ** libvips as the engine *)

(** [vips_image_hasalpha] of libvips 8: decided from the number of bands and
    the interpretation. *)
Definition vips_image_hasalpha (image : VImage) : bool :=
  (bands image =? 2)
  || ((bands image =? 4)
      && negb (interpretation_eqb (interpretation image) VIPS_INTERPRETATION_CMYK))
  || (bands image >? 4).

Definition vips_interpretation_nick (i : VipsInterpretation) : string :=
  match i with
  | VIPS_INTERPRETATION_ERROR => "error"
  | VIPS_INTERPRETATION_MULTIBAND => "multiband"
  | VIPS_INTERPRETATION_B_W => "b-w"
  | VIPS_INTERPRETATION_HISTOGRAM => "histogram"
  | VIPS_INTERPRETATION_XYZ => "xyz"
  | VIPS_INTERPRETATION_LAB => "lab"
  | VIPS_INTERPRETATION_CMYK => "cmyk"
  | VIPS_INTERPRETATION_LABQ => "labq"
  | VIPS_INTERPRETATION_RGB => "rgb"
  | VIPS_INTERPRETATION_CMC => "cmc"
  | VIPS_INTERPRETATION_LCH => "lch"
  | VIPS_INTERPRETATION_LABS => "labs"
  | VIPS_INTERPRETATION_sRGB => "srgb"
  | VIPS_INTERPRETATION_YXY => "yxy"
  | VIPS_INTERPRETATION_FOURIER => "fourier"
  | VIPS_INTERPRETATION_RGB16 => "rgb16"
  | VIPS_INTERPRETATION_GREY16 => "grey16"
  | VIPS_INTERPRETATION_MATRIX => "matrix"
  | VIPS_INTERPRETATION_scRGB => "scrgb"
  | VIPS_INTERPRETATION_HSV => "hsv"
  end.

Definition vips_band_format_nick (f : VipsBandFormat) : string :=
  match f with
  | VIPS_FORMAT_NOTSET => "notset"
  | VIPS_FORMAT_UCHAR => "uchar"
  | VIPS_FORMAT_CHAR => "char"
  | VIPS_FORMAT_USHORT => "ushort"
  | VIPS_FORMAT_SHORT => "short"
  | VIPS_FORMAT_UINT => "uint"
  | VIPS_FORMAT_INT => "int"
  | VIPS_FORMAT_FLOAT => "float"
  | VIPS_FORMAT_COMPLEX => "complex"
  | VIPS_FORMAT_DOUBLE => "double"
  | VIPS_FORMAT_DPCOMPLEX => "dpcomplex"
  end.

(** [vips_bandjoin_const]: one band is joined per constant, every sample of
    it the constant; the cast of the constant to the band format is left
    out, the samples here being integers. *)
Definition vips_bandjoin_const (image : VImage) (c : list Z) : VImage :=
  {| width := width image;
     height := height image;
     interpretation := interpretation image;
     format := format image;
     xres := xres image;
     planes :=
       planes image
       ++ map (fun value => repeat value (Z.to_nat (width image * height image))) c;
     metadata := metadata image |}.

(** libvips at a given version, for the examples. *)
Definition libvips (major minor micro : Z) : Engine :=
  {| has_alpha := vips_image_hasalpha;
     bandjoin_const := vips_bandjoin_const;
     interpretation_nick := vips_interpretation_nick;
     band_format_nick := vips_band_format_nick;
     VIPS_MAJOR_VERSION := major;
     VIPS_MINOR_VERSION := minor;
     VIPS_MICRO_VERSION := micro |}.

(** Sample images: an animated two-frame GIF of 4x6 pixels as libvips 8.9
    loads it, with the members of its report, and a three-band sRGB
    image. *)
Definition gif_4x6 : VImage :=
  {| width := 4;
     height := 6;
     interpretation := VIPS_INTERPRETATION_sRGB;
     format := VIPS_FORMAT_UCHAR;
     xres := 0x1.6ad5ab56ad5abp+1%float;
     planes := repeat (repeat 7 24) 4;
     metadata :=
       <[ "n-pages" := MetaInt 2 ]>
       (<[ "page-height" := MetaInt 3 ]>
       (<[ "loop" := MetaInt 0 ]>
       (<[ "delay" := MetaArrayInt [100; 40] ]>
       (<[ "orientation" := MetaInt 1 ]> ∅)))) |}.

Definition gif_4x6_report : list json_member :=
  [("format", JString "gif"); ("width", JNumber 4); ("height", JNumber 6);
   ("space", JString "srgb"); ("channels", JNumber 4);
   ("depth", JString "uchar"); ("density", JNumber 72);
   ("isProgressive", JBool false); ("pages", JNumber 2);
   ("pageHeight", JNumber 3); ("loop", JNumber 0);
   ("delay", JArray [100; 40]); ("hasProfile", JBool false);
   ("hasAlpha", JBool true); ("orientation", JNumber 1)]%string.

Definition rgb_2x1 : VImage :=
  {| width := 2;
     height := 1;
     interpretation := VIPS_INTERPRETATION_sRGB;
     format := VIPS_FORMAT_UCHAR;
     xres := 1%float;
     planes := [[10; 20]; [30; 40]; [50; 60]];
     metadata := ∅ |}.

(** A one-pixel image whose chroma subsampling string has double quotes in
    it: 4:2:0, a quote, a comma, the word pages between quotes, a colon,
    99, a comma, x between quotes, a colon and a quote. *)
Definition quoted_subsampling : VImage :=
  {| width := 1;
     height := 1;
     interpretation := VIPS_INTERPRETATION_sRGB;
     format := VIPS_FORMAT_UCHAR;
     xres := 1%float;
     planes := [[0]];
     metadata :=
       {[ "jpeg-chroma-subsample" :=
            MetaString
              ("4:2:0" +:+ dquote +:+ "," +:+ dquote +:+ "pages" +:+ dquote
               +:+ ":99," +:+ dquote +:+ "x" +:+ dquote +:+ ":" +:+ dquote) ]}
  |}.

(* ================================================================== *)
(** ** The request boundary (src/api/api_manager_impl.h) *)


Module ApiManager.

(** Modelled from the spec: the failures a request can end in, which the
    sources do not declare.  Section 7 names validation, geometry,
    unsupported-format, stage and I/O errors, and unexpected lower-level
    faults besides; a validation error identifies the field and a stage
    error the stage. *)
Inductive failure : Type :=
  | ValidationError (field what : string)
  | GeometryError (what : string)
  | UnsupportedFormatError (requested : string)
  | StageError (stage what : string)
  | IOError (what : string)
  | UnexpectedFault (what : string).

Inductive error_kind : Set :=
  | Validation | Geometry | UnsupportedFormat | Stage | IO | Unexpected.

(** Modelled from the spec: [utils::Status], declared outside the sources.
    Section 3: success, or a tagged failure reason with a message. *)
Inductive Status : Type :=
  | OK
  | Failed (kind : error_kind) (message : string).

Definition kind_of (e : failure) : error_kind :=
  match e with
  | ValidationError _ _ => Validation
  | GeometryError _ => Geometry
  | UnsupportedFormatError _ => UnsupportedFormat
  | StageError _ _ => Stage
  | IOError _ => IO
  | UnexpectedFault _ => Unexpected
  end.

Definition describe (e : failure) : string :=
  match e with
  | ValidationError field what => "invalid value for " +:+ field +:+ ": " +:+ what
  | GeometryError what => "geometry error: " +:+ what
  | UnsupportedFormatError requested => "unsupported format: " +:+ requested
  | StageError stage what => stage +:+ ": " +:+ what
  | IOError what => "i/o error: " +:+ what
  | UnexpectedFault what => "unexpected error: " +:+ what
  end.

(** Modelled from the spec: [exception_handler], of which the sources have
    the declaration only.  Section 7: the one boundary function, turning any
    failure into a Status with the error kind, a message, and the original
    query string.  The failure in flight, which the C++ function rethrows to
    inspect, is an argument here. *)
Definition exception_handler (query : string) (e : failure) : Status :=
  Failed (kind_of e) (describe e +:+ " [query: " +:+ query +:+ "]").

Section Request.

(** The collaborators of a request, all outside the sources: validation of
    the query, the loader, the processor stages in their fixed order, each
    under its identifier, and the saver. *)
Variable ParameterSet : Type.
Variable validate : string -> failure + ParameterSet.
Variable load : list Byte.byte -> failure + VImage.
Variable stages : list (string * (ParameterSet -> VImage -> string + VImage)).
Variable save : ParameterSet -> VImage -> failure + list Byte.byte.

(** Modelled from the spec: the stages applied in sequence, section 4.5; an
    engine error surfaces as a failure of the stage it happened in. *)
Fixpoint apply_stages
  (todo : list (string * (ParameterSet -> VImage -> string + VImage)))
  (params : ParameterSet) (image : VImage) : failure + VImage :=
  match todo with
  | [] => inr image
  | (stage, apply) :: rest =>
      match apply params image with
      | inl what => inl (StageError stage what)
      | inr image' => apply_stages rest params image'
      end
  end.

(** Modelled from the spec: the body of [process], sections 2 and 5:
    validate, load, apply the stages, save; the first failure ends it. *)
Definition run (query : string) (source : list Byte.byte)
  : failure + list Byte.byte :=
  match validate query with
  | inl e => inl e
  | inr params =>
      match load source with
      | inl e => inl e
      | inr image =>
          match apply_stages stages params image with
          | inl e => inl e
          | inr image' => save params image'
          end
      end
  end.

(** Modelled from the spec: [process], sections 3 and 7: the Status of the
    request with the bytes handed to the target, none on a failure; every
    failure of the body is caught and given to [exception_handler]. *)
Definition process (query : string) (source : list Byte.byte)
  : Status * option (list Byte.byte) :=
  match run query source with
  | inr bytes => (OK, Some bytes)
  | inl e => (exception_handler query e, None)
  end.

End Request.

End ApiManager.

(* ================================================================== *)
(** ** Further definitions *)

(** The quarter turn a [VipsAngle] names, in degrees. *)
Definition angle_degrees (angle : VipsAngle) : Z :=
  match angle with
  | VIPS_ANGLE_D0 => 0
  | VIPS_ANGLE_D90 => 90
  | VIPS_ANGLE_D180 => 180
  | VIPS_ANGLE_D270 => 270
  end.

(** The anchor across the centre of the grid. *)
Definition opposite (pos : Position.t) : Position.t :=
  match pos with
  | Position.Centre => Position.Centre
  | Position.Top => Position.Bottom
  | Position.Right => Position.Left
  | Position.Bottom => Position.Top
  | Position.Left => Position.Right
  | Position.TopRight => Position.BottomLeft
  | Position.BottomRight => Position.TopLeft
  | Position.BottomLeft => Position.TopRight
  | Position.TopLeft => Position.BottomRight
  end.

(** The order of version numbers: by major, then minor, then patch. *)
Definition version_le (v w : Z * Z * Z) : Prop :=
  let '(a, b, c) := v in
  let '(x, y, z) := w in
  a < x \/ (a = x /\ (b < y \/ (b = y /\ c <= z))).

(** The version of the engine's headers. *)
Definition engine_version `{Engine} : Z * Z * Z :=
  (VIPS_MAJOR_VERSION, VIPS_MINOR_VERSION, VIPS_MICRO_VERSION).

(* ================================================================== *)
(** ** escape_string *)

Definition backslash : ascii := "092"%char.
Definition double_quote : ascii := "034"%char.

(** What the switch of [escape_string] writes for one character. *)
Definition escape_char (c : ascii) : string :=
  if Ascii.eqb c "000" then "\u0000"
  else if Ascii.eqb c "001" then "\u0001"
  else if Ascii.eqb c "010" then "\n"
  else if Ascii.eqb c "031" then "\u001f"
  else if Ascii.eqb c double_quote then String backslash (String double_quote "")
  else if Ascii.eqb c backslash then String backslash (String backslash "")
  else String c "".

Fixpoint escape_string (s : string) : string :=
  match s with
  | EmptyString => EmptyString
  | String c rest => escape_char c +:+ escape_string rest
  end.

(** The characters [escape_string] replaces. *)
Definition escaped_chars : list ascii :=
  ["000"; "001"; "010"; "031"; double_quote; backslash]%char.

(** Whether a character occurs in a string. *)
Fixpoint occurs (c : ascii) (s : string) : bool :=
  match s with
  | EmptyString => false
  | String d rest => Ascii.eqb c d || occurs c rest
  end.

(** Whether every double quote of a string comes right after a backslash;
    [after_backslash] says whether the string itself does. *)
Fixpoint quotes_escaped (after_backslash : bool) (s : string) : bool :=
  match s with
  | EmptyString => true
  | String c rest =>
      (if Ascii.eqb c double_quote then after_backslash else true)
      && quotes_escaped (Ascii.eqb c backslash) rest
  end.

(** The character a [\u] escape of [escape_string] stands for. *)
Definition control_of_hex (h1 h2 h3 h4 : ascii) : option ascii :=
  if Ascii.eqb h1 "0" && Ascii.eqb h2 "0" && Ascii.eqb h3 "0" && Ascii.eqb h4 "0"
  then Some "000"%char
  else if Ascii.eqb h1 "0" && Ascii.eqb h2 "0" && Ascii.eqb h3 "0"
          && Ascii.eqb h4 "1"
  then Some "001"%char
  else if Ascii.eqb h1 "0" && Ascii.eqb h2 "0" && Ascii.eqb h3 "1"
          && Ascii.eqb h4 "f"
  then Some "031"%char
  else None.

(** Reading an escaped string back: a backslash opens one of the six
    escapes, any other character stands for itself. *)
Fixpoint unescape_string (s : string) : option string :=
  match s with
  | EmptyString => Some EmptyString
  | String c rest =>
      if Ascii.eqb c backslash then
        match rest with
        | EmptyString => None
        | String d rest1 =>
            if Ascii.eqb d "n" then String "010"%char <$> unescape_string rest1
            else if Ascii.eqb d double_quote
            then String double_quote <$> unescape_string rest1
            else if Ascii.eqb d backslash
            then String backslash <$> unescape_string rest1
            else if Ascii.eqb d "u" then
              match rest1 with
              | String h1 (String h2 (String h3 (String h4 rest2))) =>
                  match control_of_hex h1 h2 h3 h4 with
                  | Some control => String control <$> unescape_string rest2
                  | None => None
                  end
              | _ => None
              end
            else None
        end
      else String c <$> unescape_string rest
  end.

(* ================================================================== *)
(** ** Tables for the format properties *)

(** The image types whose loaders read several pages. *)
Definition paged_types : list ImageType.t :=
  [ImageType.Pdf; ImageType.Gif; ImageType.Tiff; ImageType.Webp;
   ImageType.Heif; ImageType.Magick].

Definition is_paged_type (image_type : ImageType.t) : bool :=
  match image_type with
  | ImageType.Pdf | ImageType.Gif | ImageType.Tiff | ImageType.Webp
  | ImageType.Heif | ImageType.Magick => true
  | _ => false
  end.

(** The image types that can carry an alpha channel. *)
Definition alpha_types : list ImageType.t :=
  [ImageType.Png; ImageType.Webp; ImageType.Tiff; ImageType.Gif].

(* ================================================================== *)
(** ** The order of the report *)

(** Every key [image_to_json] can write, in the order of its statements. *)
Definition all_keys : list string :=
  ["format"; "width"; "height"; "space"; "channels"; "depth"; "density";
   "chromaSubsampling"; "isProgressive"; "paletteBitDepth"; "pages";
   "pageHeight"; "loop"; "delay"; "pagePrimary"; "hasProfile"; "hasAlpha";
   "orientation"]%string.

(* ================================================================== *)
(** ** Reading a report back *)

(** The text [image_to_json] returns is read back as a JSON object whose
    values are strings without escapes, integers, booleans and arrays of
    integers.  A character may stand in a string as it is when it is no
    double quote, no backslash and no control character. *)
Definition plain_char (c : ascii) : bool :=
  negb (Ascii.eqb c double_quote) && negb (Ascii.eqb c backslash)
  && (32 <=? nat_of_ascii c)%nat.

Fixpoint plain (s : string) : bool :=
  match s with
  | EmptyString => true
  | String c rest => plain_char c && plain rest
  end.

(** The characters up to the closing quote of a string, and the text after
    that quote. *)
Fixpoint read_string (s : string) : option (string * string) :=
  match s with
  | EmptyString => None
  | String c rest =>
      if Ascii.eqb c double_quote then Some (EmptyString, rest)
      else if plain_char c then
        match read_string rest with
        | Some (body, after) => Some (String c body, after)
        | None => None
        end
      else None
  end.

(** The characters of an integer: the sign and the ten digits. *)
Definition number_char (c : ascii) : bool :=
  Ascii.eqb c "-" || ((48 <=? nat_of_ascii c)%nat && (nat_of_ascii c <=? 57)%nat).

Fixpoint number_text (s : string) : bool :=
  match s with
  | EmptyString => true
  | String c rest => number_char c && number_text rest
  end.

(** The integer a decimal numeral denotes. *)
Definition int_of_text (token : string) : option Z :=
  match NilZero.int_of_string token with
  | Some d => Some (Z.of_int d)
  | None => None
  end.

(** The longest run of number characters a text starts with, and the text
    after it. *)
Fixpoint read_number_text (s : string) : string * string :=
  match s with
  | EmptyString => (EmptyString, EmptyString)
  | String c rest =>
      if number_char c then
        let (token, after) := read_number_text rest in (String c token, after)
      else (EmptyString, s)
  end.

(** The items of an array after its opening bracket: integers separated by
    commas up to the closing bracket; [token] holds the characters of the
    item being read and [items] the items read so far. *)
Fixpoint read_items (s token : string) (items : list Z)
  : option (list Z * string) :=
  match s with
  | EmptyString => None
  | String c rest =>
      if Ascii.eqb c "," then
        match int_of_text token with
        | Some z => read_items rest EmptyString (items ++ [z])
        | None => None
        end
      else if Ascii.eqb c "]" then
        match int_of_text token with
        | Some z => Some (items ++ [z], rest)
        | None => None
        end
      else if number_char c then read_items rest (token +:+ String c EmptyString) items
      else None
  end.

Definition read_array (s : string) : option (list Z * string) :=
  match s with
  | EmptyString => None
  | String c rest =>
      if Ascii.eqb c "]" then Some ([], rest) else read_items s EmptyString []
  end.

(** A text without its first [n] characters. *)
Fixpoint skip (n : nat) (s : string) : string :=
  match n, s with
  | S m, String _ rest => skip m rest
  | _, _ => s
  end.

Definition read_value (s : string) : option (json_value * string) :=
  match s with
  | EmptyString => None
  | String c rest =>
      if Ascii.eqb c double_quote then
        match read_string rest with
        | Some (body, after) => Some (JString body, after)
        | None => None
        end
      else if Ascii.eqb c "[" then
        match read_array rest with
        | Some (items, after) => Some (JArray items, after)
        | None => None
        end
      else if String.prefix "true" s then Some (JBool true, skip 4 s)
      else if String.prefix "false" s then Some (JBool false, skip 5 s)
      else
        let (token, after) := read_number_text s in
        match int_of_text token with
        | Some z => Some (JNumber z, after)
        | None => None
        end
  end.

(** The text after a value in a report: a comma or the closing brace. *)
Definition separated (rest : string) : Prop :=
  exists c after, rest = String c after /\ (c = ","%char \/ c = "}"%char).

(** A member: a key between quotes, a colon and a value. *)
Definition read_member (s : string) : option (json_member * string) :=
  match s with
  | EmptyString => None
  | String c rest =>
      if Ascii.eqb c double_quote then
        match read_string rest with
        | Some (key, String colon after) =>
            if Ascii.eqb colon ":" then
              match read_value after with
              | Some (value, after') => Some ((key, value), after')
              | None => None
              end
            else None
        | _ => None
        end
      else None
  end.

(** Members separated by commas up to the closing brace; [fuel] bounds
    their number. *)
Fixpoint read_members (fuel : nat) (s : string)
  : option (list json_member * string) :=
  match fuel with
  | O => None
  | S fuel' =>
      match read_member s with
      | Some (member, String c after) =>
          if Ascii.eqb c "," then
            match read_members fuel' after with
            | Some (members, rest) => Some (member :: members, rest)
            | None => None
            end
          else if Ascii.eqb c "}" then Some ([member], after)
          else None
      | _ => None
      end
  end.

(** The members of an object that is the whole of a text. *)
Definition read_object (s : string) : option (list json_member) :=
  match s with
  | EmptyString => None
  | String c rest =>
      if Ascii.eqb c "{" then
        if String.eqb rest "}" then Some []
        else
          match read_members (String.length rest) rest with
          | Some (members, EmptyString) => Some members
          | _ => None
          end
      else None
  end.

(** The members that read back as they are: keys and string values are
    plain. *)
Definition plain_value (v : json_value) : bool :=
  match v with
  | JString s => plain s
  | _ => true
  end.

Definition plain_member (m : json_member) : bool :=
  plain (fst m) && plain_value (snd m).

(** The strings of an image that a report holds as they are: the nicknames
    of its interpretation and band format, and its chroma subsampling when
    it has one. *)
Definition report_strings `{Engine} (image : VImage) : list string :=
  [interpretation_nick (interpretation image);
   band_format_nick (format image)]
  ++ match get_string image "jpeg-chroma-subsample" with
     | Some subsampling => [subsampling]
     | None => []
     end.

(* ================================================================== *)
(** * Properties *)

Section MachineIntegers.

Lemma wrap_small w z :
  0 < w -> - 2 ^ (w - 1) <= z < 2 ^ (w - 1) -> wrap w z = z.
Proof.
  intros Hw Hz. unfold wrap.
  assert (E : 2 ^ w = 2 * 2 ^ (w - 1)).
  { replace w with (Z.succ (w - 1)) at 1 by lia. apply Z.pow_succ_r. lia. }
  rewrite Z.mod_small; lia.
Qed.

Lemma wrap_range w z :
  0 < w -> - 2 ^ (w - 1) <= wrap w z < 2 ^ (w - 1).
Proof.
  intros Hw. unfold wrap.
  assert (E : 2 ^ w = 2 * 2 ^ (w - 1)).
  { replace w with (Z.succ (w - 1)) at 1 by lia. apply Z.pow_succ_r. lia. }
  assert (P : 0 < 2 ^ (w - 1)) by (apply Z.pow_pos_nonneg; lia).
  pose proof (Z.mod_pos_bound (z + 2 ^ (w - 1)) (2 ^ w)). lia.
Qed.

Lemma wrap32_small z : in_int z -> wrap 32 z = z.
Proof.
  unfold in_int, INT_MIN, INT_MAX. intros H.
  apply wrap_small; [lia|]. change (32 - 1) with 31. lia.
Qed.

Lemma wrap32_in_int z : in_int (wrap 32 z).
Proof.
  pose proof (wrap_range 32 z eq_refl) as H. change (32 - 1) with 31 in H.
  unfold in_int, INT_MIN, INT_MAX. lia.
Qed.

Lemma wrap32_fixed z : wrap 32 z = z <-> in_int z.
Proof.
  split; [intros <-; apply wrap32_in_int | apply wrap32_small].
Qed.

Lemma int64_mul_exact a b : in_int a -> in_int b -> int64_mul a b = a * b.
Proof.
  unfold in_int, INT_MIN, INT_MAX, int64_mul. intros Ha Hb.
  apply wrap_small; [lia|]. change (64 - 1) with 63.
  change (2 ^ 63) with 9223372036854775808.
  change (2 ^ 31) with 2147483648 in *. nia.
Qed.

End MachineIntegers.

(* ================================================================== *)
(** ** Overflow-checked multiplication *)

Section MulOverflow.

Lemma builtin_smul_overflow_flag a b :
  fst (builtin_smul_overflow a b) = negb (in_intb (a * b)).
Proof.
  unfold builtin_smul_overflow, in_intb. cbn [fst]. f_equal.
  destruct (wrap 32 (a * b) =? a * b) eqn:E.
  - apply Z.eqb_eq, wrap32_fixed in E. unfold in_int in E.
    symmetry. apply andb_true_iff. split; apply Z.leb_le; lia.
  - symmetry. apply not_true_is_false. intros H.
    apply andb_true_iff in H as [H1 H2]. apply Z.leb_le in H1, H2.
    apply Z.eqb_neq in E. apply E, wrap32_small. split; assumption.
Qed.

Lemma in_intb_spec z : in_intb z = true <-> in_int z.
Proof.
  unfold in_intb, in_int. rewrite andb_true_iff, !Z.leb_le. tauto.
Qed.

(** Both compilations of [mul_overflow] compute the same flag and the same
    stored value on [int] arguments. *)
Lemma mul_overflow_branches_agree a b :
  in_int a -> in_int b -> mul_overflow true a b = mul_overflow false a b.
Proof.
  intros Ha Hb. unfold mul_overflow, builtin_smul_overflow, int_cast.
  rewrite (int64_mul_exact a b Ha Hb). f_equal.
  destruct (wrap 32 (a * b) =? a * b) eqn:E; cbn [negb].
  - apply Z.eqb_eq, wrap32_fixed in E. unfold in_int in E. symmetry.
    rewrite Z.gtb_ltb. apply orb_false_iff. split; apply Z.ltb_ge; lia.
  - apply Z.eqb_neq in E. symmetry. apply orb_true_iff.
    destruct (Z.ltb_spec (a * b) INT_MIN) as [L|L]; [now right|left].
    rewrite Z.gtb_ltb. apply Z.ltb_lt.
    destruct (Z.ltb_spec INT_MAX (a * b)) as [G|G]; [assumption|].
    exfalso. apply E, wrap32_small. split; assumption.
Qed.

(** C1. For [int] arguments [a] and [b], [mul_overflow] returns true exactly
    when the mathematical product [a * b] lies outside the signed 32-bit
    range, and whenever it returns false the value stored through [result]
    is the exact product.  This holds for the compiler-builtin compilation
    and for the portable 64-bit fallback alike. *)
Theorem mul_overflow_exact (have_builtin : bool) (a b : Z) :
  in_int a -> in_int b ->
  (fst (mul_overflow have_builtin a b) = true <-> ~ in_int (a * b)) /\
  (fst (mul_overflow have_builtin a b) = false ->
   snd (mul_overflow have_builtin a b) = a * b).
Proof.
  intros Ha Hb.
  assert (E : mul_overflow have_builtin a b = builtin_smul_overflow a b).
  { destruct have_builtin; [reflexivity|].
    symmetry. apply (mul_overflow_branches_agree a b Ha Hb). }
  rewrite E, builtin_smul_overflow_flag. split.
  - rewrite negb_true_iff, <- not_true_iff_false, in_intb_spec. tauto.
  - rewrite negb_false_iff, in_intb_spec. intros Hin.
    unfold builtin_smul_overflow. cbn [snd]. now apply wrap32_small.
Qed.

Lemma mul_overflow_exact_witness :
  (in_int 65536 /\ in_int 32768) /\
  (fst (mul_overflow false 65536 32768) = true <-> ~ in_int (65536 * 32768)) /\
  (fst (mul_overflow false 65536 32768) = false ->
   snd (mul_overflow false 65536 32768) = 65536 * 32768).
Proof.
  assert (Ha : in_int 65536) by (unfold in_int, INT_MIN, INT_MAX; lia).
  assert (Hb : in_int 32768) by (unfold in_int, INT_MIN, INT_MAX; lia).
  split; [split; assumption|].
  exact (mul_overflow_exact false 65536 32768 Ha Hb).
Defined.

(** Width times height at 2^31 is reported, and the wrapped negative value
    comes with the flag raised. *)
Example mul_overflow_at_2_31 :
  mul_overflow false 65536 32768 = (true, -2147483648) /\
  mul_overflow true 65536 32768 = (true, -2147483648) /\
  mul_overflow false 46340 46340 = (false, 2147395600).
Proof. repeat split; vm_compute; reflexivity. Qed.

End MulOverflow.

(* ================================================================== *)
(** ** Anchored positions *)

Section CalculatePosition.

Lemma int_sub_exact a b : in_int (a - b) -> int_sub a b = a - b.
Proof. apply wrap32_small. Qed.

Lemma int_div_2_exact a : in_int a -> int_div a 2 = Z.quot a 2.
Proof.
  intros H. apply wrap32_small. unfold in_int, INT_MIN, INT_MAX in *.
  change (2 ^ 31) with 2147483648 in *.
  Z.to_euclidean_division_equations. lia.
Qed.

Lemma int_sub_diag a : int_sub a a = 0.
Proof. unfold int_sub. rewrite Z.sub_diag. reflexivity. Qed.

(** Whatever the arguments, the switch computes the grid on [int]
    arithmetic. *)
Lemma calculate_position_switch iw ih ow oh pos :
  calculate_position iw ih ow oh pos =
  (match column pos with
   | Near => 0
   | Middle => int_div (int_sub ow iw) 2
   | Far => int_sub ow iw
   end,
   match row pos with
   | Near => 0
   | Middle => int_div (int_sub oh ih) 2
   | Far => int_sub oh ih
   end).
Proof. destruct pos; reflexivity. Qed.

(** C2. [calculate_position] follows the 3x3 anchor grid: [left] is 0 in the
    left column, [(out_width - in_width) / 2] in the middle column and
    [out_width - in_width] in the right column, and [top] likewise over the
    rows, the division truncating towards zero.  The formulas are the same
    for a negative surplus, and hold whenever the differences the anchor
    uses are values of [int]; with equal inner and outer sizes the result is
    (0, 0) for every anchor. *)
Theorem calculate_position_grid :
  (forall in_width in_height out_width out_height pos,
      (column pos <> Near -> in_int (out_width - in_width)) ->
      (row pos <> Near -> in_int (out_height - in_height)) ->
      calculate_position in_width in_height out_width out_height pos =
      (grid_offset (column pos) in_width out_width,
       grid_offset (row pos) in_height out_height)) /\
  (forall width height pos,
      calculate_position width height width height pos = (0, 0)).
Proof.
  split.
  - intros iw ih ow oh pos Hc Hr. rewrite calculate_position_switch.
    unfold grid_offset. f_equal.
    + destruct (column pos); [reflexivity| |];
        rewrite int_sub_exact by (apply Hc; discriminate);
        [apply int_div_2_exact; apply Hc; discriminate | reflexivity].
    + destruct (row pos); [reflexivity| |];
        rewrite int_sub_exact by (apply Hr; discriminate);
        [apply int_div_2_exact; apply Hr; discriminate | reflexivity].
  - intros w h pos. rewrite calculate_position_switch, !int_sub_diag.
    destruct (column pos), (row pos); reflexivity.
Qed.

Lemma calculate_position_grid_witness :
  in_int (200 - 501) /\ in_int (100 - 301) /\
  calculate_position 501 301 200 100 Position.Bottom = (-150, -201).
Proof.
  assert (Hw : in_int (200 - 501)) by (unfold in_int, INT_MIN, INT_MAX; lia).
  assert (Hh : in_int (100 - 301)) by (unfold in_int, INT_MIN, INT_MAX; lia).
  split; [exact Hw|]. split; [exact Hh|].
  exact (proj1 calculate_position_grid 501 301 200 100 Position.Bottom
           (fun _ => Hw) (fun _ => Hh)).
Defined.

(** An odd deficit is halved towards zero, as an odd surplus is. *)
Example calculate_position_centre_odd :
  calculate_position 5 5 2 2 Position.Centre = (-1, -1) /\
  calculate_position 2 2 5 5 Position.Centre = (1, 1).
Proof. split; vm_compute; reflexivity. Qed.

End CalculatePosition.

(* ================================================================== *)
(** ** Rotation, alpha maximum, output *)

Section SmallTables.

(** C4. [resolve_angle_rotation] is a total function of its [int] argument:
    90, 180 and 270 give the quarter turns of the same name, and every other
    value, negative or not a multiple of 90 included, gives
    [VIPS_ANGLE_D0]. *)
Theorem resolve_angle_rotation_total :
  resolve_angle_rotation 90 = VIPS_ANGLE_D90 /\
  resolve_angle_rotation 180 = VIPS_ANGLE_D180 /\
  resolve_angle_rotation 270 = VIPS_ANGLE_D270 /\
  (forall angle : Z,
      angle <> 90 -> angle <> 180 -> angle <> 270 ->
      resolve_angle_rotation angle = VIPS_ANGLE_D0).
Proof.
  repeat split. intros angle H90 H180 H270. unfold resolve_angle_rotation.
  apply Z.eqb_neq in H90, H180, H270. now rewrite H90, H180, H270.
Qed.

Lemma resolve_angle_rotation_total_witness :
  resolve_angle_rotation (-90) = VIPS_ANGLE_D0 /\
  resolve_angle_rotation 45 = VIPS_ANGLE_D0 /\
  resolve_angle_rotation 360 = VIPS_ANGLE_D0.
Proof.
  pose proof (proj2 (proj2 (proj2 resolve_angle_rotation_total))) as T.
  split; [apply T; lia|]. split; apply T; lia.
Defined.

Lemma interpretation_eqb_eq x y : interpretation_eqb x y = true <-> x = y.
Proof.
  split; [|intros <-; destruct x; reflexivity].
  destruct x, y; (reflexivity || discriminate).
Qed.

Lemma is_16_bit_spec i :
  is_16_bit i = true <->
  i = VIPS_INTERPRETATION_RGB16 \/ i = VIPS_INTERPRETATION_GREY16.
Proof.
  unfold is_16_bit. rewrite orb_true_iff, !interpretation_eqb_eq. tauto.
Qed.

(** C7. [maximum_image_alpha] is 65535 for the 16-bit interpretations, which
    are RGB16 and GREY16 and exactly those [is_16_bit] accepts, and 255 for
    every other interpretation. *)
Theorem maximum_image_alpha_by_depth (interpretation : VipsInterpretation) :
  (is_16_bit interpretation = true <->
   interpretation = VIPS_INTERPRETATION_RGB16 \/
   interpretation = VIPS_INTERPRETATION_GREY16) /\
  maximum_image_alpha interpretation =
  (if is_16_bit interpretation then 65535 else 255) /\
  (maximum_image_alpha interpretation = 65535 <->
   interpretation = VIPS_INTERPRETATION_RGB16 \/
   interpretation = VIPS_INTERPRETATION_GREY16) /\
  (maximum_image_alpha interpretation = 255 <->
   interpretation <> VIPS_INTERPRETATION_RGB16 /\
   interpretation <> VIPS_INTERPRETATION_GREY16).
Proof.
  split; [apply is_16_bit_spec|]. split; [reflexivity|].
  destruct interpretation; cbn; intuition (discriminate || congruence).
Qed.

Lemma determine_image_extension_allowed output :
  In (determine_image_extension output) allowed_extensions.
Proof. destruct output; cbn; tauto. Qed.

(** C10. For every image type [to_output] is one of the five encodable
    outputs, the types without a saver of their own (Svg, Pdf, Heif, Magick,
    Unknown) going to Png, and the extension chosen for that output is one
    of .jpg, .webp, .tiff, .gif and .png. *)
Theorem to_output_encodable (image_type : ImageType.t) :
  In (to_output image_type) encodable_outputs /\
  (In image_type
      [ImageType.Svg; ImageType.Pdf; ImageType.Heif; ImageType.Magick;
       ImageType.Unknown] ->
   to_output image_type = Output.Png) /\
  In (determine_image_extension (to_output image_type)) allowed_extensions.
Proof.
  split; [destruct image_type; cbn; tauto|].
  split; [|apply determine_image_extension_allowed].
  cbn. intros [<-|[<-|[<-|[<-|[<-|[]]]]]]; reflexivity.
Qed.

Lemma to_output_encodable_witness :
  to_output ImageType.Svg = Output.Png.
Proof.
  apply (proj1 (proj2 (to_output_encodable ImageType.Svg))).
  cbn. tauto.
Defined.

End SmallTables.

(* ================================================================== *)
(** ** Loader classification *)

Section DetermineImageType.

Local Open Scope string_scope.

Lemma prefix_append p rest : String.prefix p (p ++ rest) = true.
Proof.
  induction p as [|c p IH]; [now destruct rest|].
  change (String c p ++ rest) with (String c (p ++ rest)).
  cbn [String.prefix].
  destruct (Ascii.ascii_dec c c); [exact IH|contradiction].
Qed.

Lemma prefix_split p s :
  String.prefix p s = true -> exists rest, s = p ++ rest.
Proof.
  revert s. induction p as [|c p IH]; intros s H.
  - exists s. reflexivity.
  - destruct s as [|d s]; cbn in H; [discriminate|].
    destruct (Ascii.ascii_dec c d) as [->|]; [|discriminate].
    destruct (IH s H) as [rest ->]. exists rest. reflexivity.
Qed.

Lemma prefix_length p s :
  String.prefix p s = true -> (String.length p <= String.length s)%nat.
Proof.
  revert s. induction p as [|c p IH]; intros s H; cbn; [lia|].
  destruct s as [|d s]; cbn in H; [discriminate|].
  destruct (Ascii.ascii_dec c d); [|discriminate].
  cbn. specialize (IH s H). lia.
Qed.

(** The test against offset 0 is the prefix test. *)
Lemma rfind0_is_0_prefix s p : rfind0_is_0 s p = String.prefix p s.
Proof.
  unfold rfind0_is_0, rfind.
  destruct (String.length s <? String.length p)%nat eqn:L.
  - apply Nat.ltb_lt in L. destruct (String.prefix p s) eqn:P; [|reflexivity].
    apply prefix_length in P. lia.
  - cbn [Nat.min rfind_from].
    destruct (String.eqb (substring 0 (String.length p) s) p) eqn:E.
    + apply String.eqb_eq in E. symmetry. now apply prefix_correct.
    + destruct (String.prefix p s) eqn:P; [|reflexivity].
      apply prefix_correct in P. apply String.eqb_neq in E. contradiction.
Qed.

(** Two prefixes of one string are comparable. *)
Lemma prefix_comparable p q s :
  String.prefix p s = true -> String.prefix q s = true ->
  String.prefix p q = true \/ String.prefix q p = true.
Proof.
  revert q s. induction p as [|c p IH]; intros q s Hp Hq.
  - left. now destruct q.
  - destruct q as [|d q]; [right; reflexivity|].
    destruct s as [|e s]; cbn in Hp, Hq; [discriminate|].
    destruct (Ascii.ascii_dec c e) as [->|]; [|discriminate].
    destruct (Ascii.ascii_dec d e) as [->|]; [|discriminate].
    cbn. destruct (Ascii.ascii_dec e e); [|contradiction].
    exact (IH q s Hp Hq).
Qed.

Ltac other_prefix_fails H :=
  match goal with
  | |- context [String.prefix ?q ?s] =>
      lazymatch type of H with
      | String.prefix q s = true => fail
      | _ =>
          let E := fresh "E" in
          destruct (String.prefix q s) eqn:E;
          [ exfalso;
            destruct (prefix_comparable _ _ _ H E) as [X|X];
            vm_compute in X; discriminate X
          | ]
      end
  end.

(** C6. [determine_image_type] is a total function of the loader name: a
    name that begins with one of the nine recognised loader prefixes gets
    the image type of that prefix, and every other name gets
    [ImageType::Unknown]. *)
Theorem determine_image_type_total :
  (forall p ty rest,
      In (p, ty) loader_prefixes -> determine_image_type (p ++ rest) = ty) /\
  (forall loader,
      (forall p ty rest, In (p, ty) loader_prefixes -> loader <> p ++ rest) ->
      determine_image_type loader = ImageType.Unknown).
Proof.
  split.
  - intros p ty rest Hin.
    pose proof (prefix_append p rest) as H.
    unfold determine_image_type. rewrite !rfind0_is_0_prefix.
    cbn in Hin.
    repeat (destruct Hin as [Hin|Hin];
            [inversion Hin; subst p ty; clear Hin;
             repeat other_prefix_fails H; now rewrite H|]).
    destruct Hin.
  - intros loader Hno.
    assert (N : forall p ty, In (p, ty) loader_prefixes ->
                             String.prefix p loader = false).
    { intros p ty Hin. destruct (String.prefix p loader) eqn:P; [|reflexivity].
      destruct (prefix_split p loader P) as [rest ->].
      exfalso. exact (Hno p ty rest Hin eq_refl). }
    unfold determine_image_type. rewrite !rfind0_is_0_prefix.
    rewrite (N "VipsForeignLoadJpeg" ImageType.Jpeg) by (cbn; tauto).
    rewrite (N "VipsForeignLoadPng" ImageType.Png) by (cbn; tauto).
    rewrite (N "VipsForeignLoadWebp" ImageType.Webp) by (cbn; tauto).
    rewrite (N "VipsForeignLoadTiff" ImageType.Tiff) by (cbn; tauto).
    rewrite (N "VipsForeignLoadGif" ImageType.Gif) by (cbn; tauto).
    rewrite (N "VipsForeignLoadSvg" ImageType.Svg) by (cbn; tauto).
    rewrite (N "VipsForeignLoadPdf" ImageType.Pdf) by (cbn; tauto).
    rewrite (N "VipsForeignLoadHeif" ImageType.Heif) by (cbn; tauto).
    rewrite (N "VipsForeignLoadMagick" ImageType.Magick) by (cbn; tauto).
    reflexivity.
Qed.

Lemma determine_image_type_total_witness :
  determine_image_type "VipsForeignLoadPngBuffer" = ImageType.Png /\
  determine_image_type "VipsForeignLoadVips" = ImageType.Unknown.
Proof.
  split.
  - apply (proj1 determine_image_type_total "VipsForeignLoadPng" ImageType.Png
             "Buffer"). cbn. tauto.
  - apply (proj2 determine_image_type_total). intros p ty rest Hin.
    cbn in Hin.
    repeat (destruct Hin as [Hin|Hin];
            [inversion Hin; subst p ty; discriminate|]).
    destruct Hin.
Defined.

End DetermineImageType.

(* ================================================================== *)
(** ** The JSON report *)

Section ImageToJson.

Context `{engine : Engine}.

Local Open Scope string_scope.

Lemma key_in_In key keys : key_in key keys = true <-> In key keys.
Proof.
  unfold key_in. rewrite existsb_exists. split.
  - intros (k & Hin & E). apply String.eqb_eq in E. now subst.
  - intros Hin. exists key. split; [assumption|apply String.eqb_refl].
Qed.

Lemma distinct_keys_NoDup keys :
  distinct_keys keys = true -> List.NoDup keys.
Proof.
  induction keys as [|k rest IH]; cbn; [constructor|].
  rewrite andb_true_iff, negb_true_iff. intros [Hk Hrest].
  constructor; [|now apply IH].
  rewrite <- key_in_In. congruence.
Qed.

Lemma nonzero_get_typeof image name :
  nonzero (get_typeof image name) = true <-> field_present image name.
Proof.
  unfold get_typeof, field_present.
  destruct (metadata image !! name); cbn; split; intros H;
    try reflexivity; try discriminate; [eauto | destruct H; discriminate].
Qed.

Lemma get_int_absent image name :
  nonzero (get_typeof image name) = false -> get_int image name = None.
Proof.
  unfold get_typeof, get_int.
  destruct (metadata image !! name); cbn; [discriminate|reflexivity].
Qed.

Lemma get_array_int_absent image name :
  nonzero (get_typeof image name) = false -> get_array_int image name = None.
Proof.
  unfold get_typeof, get_array_int.
  destruct (metadata image !! name); cbn; [discriminate|reflexivity].
Qed.

Lemma delay_value_absent image :
  nonzero (get_typeof image delay_field) = false -> delay_value image = None.
Proof.
  unfold delay_field, delay_value.
  destruct (VIPS_VERSION_AT_LEAST 8 9 0); intros H.
  - now rewrite get_array_int_absent.
  - now rewrite get_int_absent.
Qed.

Lemma put_if_written cond key value json json' :
  put_if cond key value json = Some json' ->
  json' = (json ++ written cond key value)%list /\
  (cond = true -> is_Some value).
Proof.
  unfold put_if, written, put. destruct cond; cbn.
  - destruct value as [v|]; cbn; [|discriminate].
    intros [= <-]. eauto.
  - intros [= <-]. rewrite app_nil_r. split; [reflexivity|discriminate].
Qed.

Lemma key_in_put key json k v :
  key_in key (member_keys (put json k v))
  = key_in key (member_keys json) || String.eqb key k.
Proof.
  unfold key_in, member_keys, put. rewrite map_app, existsb_app. cbn.
  now rewrite orb_false_r.
Qed.

Lemma key_in_app key (json more : list json_member) :
  key_in key (member_keys (json ++ more)%list)
  = key_in key (member_keys json) || key_in key (member_keys more).
Proof. unfold key_in, member_keys. now rewrite map_app, existsb_app. Qed.

Lemma key_in_written key cond k value :
  (cond = true -> is_Some value) ->
  key_in key (member_keys (written cond k value)) = String.eqb key k && cond.
Proof.
  intros G. destruct cond; cbn.
  - destruct (G eq_refl) as [v ->]. cbn. now rewrite orb_false_r, andb_true_r.
  - now rewrite andb_false_r.
Qed.

Lemma first_some_None_r {A : Type} (x : option A) : first_some x None = x.
Proof. now destruct x. Qed.

Lemma lookup_member_app key (json more : list json_member) :
  lookup_member key (json ++ more)%list
  = first_some (lookup_member key json) (lookup_member key more).
Proof.
  induction json as [|[k' v'] json IH]; cbn;
    [now destruct (lookup_member key more)|].
  destruct (String.eqb key k'); [reflexivity|exact IH].
Qed.

Lemma lookup_member_put_other key json k v :
  String.eqb key k = false ->
  lookup_member key (put json k v) = lookup_member key json.
Proof.
  intros E. unfold put. rewrite lookup_member_app. cbn. rewrite E.
  apply first_some_None_r.
Qed.

Lemma lookup_member_written_other key cond k value :
  String.eqb key k = false -> lookup_member key (written cond k value) = None.
Proof.
  intros E. destruct cond; [|reflexivity]. destruct value; cbn; [|reflexivity].
  now rewrite E.
Qed.

Lemma lookup_member_written_same key cond value :
  (cond = true -> is_Some value) ->
  lookup_member key (written cond key value) = if cond then value else None.
Proof.
  intros G. destruct cond; [|reflexivity].
  destruct (G eq_refl) as [v ->]. cbn. now rewrite String.eqb_refl.
Qed.

Lemma member_keys_put json k v :
  member_keys (put json k v) = (member_keys json ++ [k])%list.
Proof. unfold member_keys, put. now rewrite map_app. Qed.

Lemma member_keys_app_written json cond k value :
  (cond = true -> is_Some value) ->
  member_keys (json ++ written cond k value)%list
  = (member_keys json ++ if cond then [k] else [])%list.
Proof.
  intros G. unfold member_keys. rewrite map_app. f_equal.
  destruct cond; [|reflexivity]. now destruct (G eq_refl) as [v ->].
Qed.

(** Running the report to its end: every guarded write succeeded, and the
    stream holds what each write left. *)
Ltac open_report H :=
  unfold image_to_json_members in H;
  repeat match type of H with
         | (?o ≫= _) = Some _ =>
             let j := fresh "json" in
             let W := fresh "W" in
             destruct o as [j|] eqn:W;
             [cbn [mbind option_bind] in H | discriminate H]
         end;
  injection H as <-;
  repeat match goal with
         | W : put_if _ _ _ _ = Some _ |- _ =>
             apply put_if_written in W; destruct W as [-> ?]
         end.

Ltac key_steps :=
  repeat first
    [ rewrite key_in_put
    | rewrite key_in_app
    | rewrite key_in_written by assumption ].

Ltac lookup_steps :=
  repeat first
    [ rewrite lookup_member_put_other by reflexivity
    | rewrite lookup_member_app
    | rewrite lookup_member_written_other by reflexivity
    | rewrite lookup_member_written_same by assumption
    | rewrite first_some_None_r ];
  cbn [lookup_member first_some].

Ltac settle_guard :=
  match goal with
  | G : ?c = true -> is_Some ?v |- context [?c] =>
      let C := fresh "C" in
      let x := fresh "x" in
      let Hx := fresh "Hx" in
      destruct c eqn:C;
      [ destruct (G eq_refl) as [x Hx]; rewrite ?Hx
      | try rewrite (get_int_absent _ _ C);
        try rewrite (delay_value_absent _ C) ]
  end.


Lemma report_required_keys image image_type members :
  image_to_json_members image image_type = Some members ->
  forallb (fun key => key_in key (member_keys members)) required_keys = true.
Proof.
  intros H. open_report H. cbn [forallb required_keys].
  repeat (apply andb_true_intro; split); try reflexivity;
    key_steps; reflexivity.
Qed.

Lemma report_distinct_keys image image_type members :
  image_to_json_members image image_type = Some members ->
  distinct_keys (member_keys members) = true.
Proof.
  intros H. open_report H.
  repeat first
    [ rewrite member_keys_put
    | rewrite member_keys_app_written by assumption ].
  repeat match goal with
         | G : ?c = true -> is_Some _ |- _ => clear G; destruct c
         end;
    vm_compute; reflexivity.
Qed.

Lemma report_optional_values image image_type members key fact :
  image_to_json_members image image_type = Some members ->
  In (key, fact) (optional_facts image) ->
  lookup_member key members = fact.
Proof.
  intros H Hin. open_report H. cbn [optional_facts In] in Hin.
  repeat (destruct Hin as [Hin|Hin];
          [injection Hin as <- <-; lookup_steps; settle_guard; reflexivity|]).
  destruct Hin.
Qed.

Lemma put_if_defined cond key value json :
  (cond = true -> is_Some value) ->
  put_if cond key value json = Some (json ++ written cond key value)%list.
Proof.
  intros G. unfold put_if, written, put. destruct cond.
  - now destruct (G eq_refl) as [v ->].
  - now rewrite app_nil_r.
Qed.

Lemma guard_of_present {A : Type} image name (read : option A)
  (wrap : A -> json_value) :
  (field_present image name -> is_Some read) ->
  nonzero (get_typeof image name) = true -> is_Some (wrap <$> read).
Proof.
  intros D C. apply fmap_is_Some, D, nonzero_get_typeof, C.
Qed.

(** The report is produced for every image whose fields are of the kinds the
    getters read. *)
Lemma image_to_json_members_defined image image_type :
  report_defined image -> is_Some (image_to_json_members image image_type).
Proof.
  intros (D2 & D3 & D4 & D5 & D6 & D7 & D8 & D9).
  unfold image_to_json_members.
  rewrite put_if_defined by (intros _; eauto).
  cbn [mbind option_bind].
  rewrite put_if_defined by (apply guard_of_present, D2).
  cbn [mbind option_bind].
  rewrite put_if_defined by (apply guard_of_present, D3).
  cbn [mbind option_bind].
  rewrite put_if_defined by (apply guard_of_present, D4).
  cbn [mbind option_bind].
  rewrite put_if_defined by (apply guard_of_present, D5).
  cbn [mbind option_bind].
  rewrite put_if_defined by (apply guard_of_present, D6).
  cbn [mbind option_bind].
  rewrite put_if_defined
    by (intros C; apply D7, nonzero_get_typeof, C).
  cbn [mbind option_bind].
  rewrite put_if_defined by (apply guard_of_present, D8).
  cbn [mbind option_bind].
  unfold exif_orientation.
  destruct (nonzero (get_typeof image VIPS_META_ORIENTATION)) eqn:C.
  - apply nonzero_get_typeof, D9 in C. destruct C as [o ->]. cbn. eauto.
  - cbn. eauto.
Qed.

End ImageToJson.

(** Before libvips 8.9 the animation members come from the GIF fields, so
    the same image reports neither [loop] nor [delay]. *)
Example image_to_json_before_8_9 :
  member_keys <$> @image_to_json_members (libvips 8 8 4) gif_4x6 ImageType.Gif
  = Some ["format"; "width"; "height"; "space"; "channels"; "depth";
          "density"; "isProgressive"; "pages"; "pageHeight"; "hasProfile";
          "hasAlpha"; "orientation"]%string.
Proof. vm_compute. reflexivity. Qed.

(* ================================================================== *)
(** ** Page height *)

Section PageHeight.

(** C3. [get_page_height] returns the declared page height when the image
    has one that is greater than zero and no larger than the image height,
    and the image height otherwise; so it never exceeds the image height and
    is positive for an image of positive height. *)
Theorem get_page_height_plausible (image : VImage) :
  (forall page_height,
      metadata image !! VIPS_META_PAGE_HEIGHT = Some (MetaInt page_height) ->
      0 < page_height <= height image ->
      get_page_height image = page_height) /\
  ((forall page_height,
       metadata image !! VIPS_META_PAGE_HEIGHT = Some (MetaInt page_height) ->
       ~ 0 < page_height <= height image) ->
   get_page_height image = height image) /\
  get_page_height image <= height image /\
  (0 < height image -> 0 < get_page_height image).
Proof.
  unfold get_page_height, vips_image_get_page_height, get_int.
  destruct (metadata image !! VIPS_META_PAGE_HEIGHT) as [[ph| | |]|];
    try (repeat split; intros; (discriminate || lia)).
  destruct (Z.ltb_spec 0 ph) as [P|P];
    destruct (Z.leb_spec ph (height image)) as [L|L]; cbn [andb];
    repeat split; try lia;
    try (intros ph' [= <-]; lia);
    try (intros N; exfalso; apply (N ph eq_refl); lia).
Qed.

Lemma get_page_height_plausible_witness :
  metadata gif_4x6 !! VIPS_META_PAGE_HEIGHT = Some (MetaInt 3) /\
  0 < 3 <= height gif_4x6 /\
  get_page_height gif_4x6 = 3.
Proof.
  assert (D : metadata gif_4x6 !! VIPS_META_PAGE_HEIGHT = Some (MetaInt 3))
    by (vm_compute; reflexivity).
  assert (R : 0 < 3 <= height gif_4x6) by (cbn; lia).
  split; [exact D|]. split; [exact R|].
  exact (proj1 (get_page_height_plausible gif_4x6) 3 D R).
Defined.

End PageHeight.

(* ================================================================== *)
(** ** Alpha channel *)

Section EnsureAlpha.

Context `{engine : Engine}.




End EnsureAlpha.


(** With the band count test of libvips, joining one band gives an alpha
    channel to every image of at least one band that had none, but for
    three bands tagged CMYK, where the fourth band is the fourth ink. *)
Lemma vips_image_hasalpha_joined (image : VImage) (c : Z) :
  1 <= bands image ->
  ~ (bands image = 3 /\ interpretation image = VIPS_INTERPRETATION_CMYK) ->
  vips_image_hasalpha image = false ->
  vips_image_hasalpha (vips_bandjoin_const image [c]) = true.
Proof.
  unfold vips_image_hasalpha, bands. cbn [planes vips_bandjoin_const map].
  rewrite length_app. cbn [length interpretation].
  rewrite Nat2Z.inj_add. change (Z.of_nat 1) with 1.
  set (n := Z.of_nat (length (planes image))).
  intros B N A.
  assert (K : interpretation_eqb (interpretation image) VIPS_INTERPRETATION_CMYK
              = true -> n <> 3).
  { intros K E. apply N. split; [exact E|now apply interpretation_eqb_eq]. }
  rewrite !Z.gtb_ltb in *. revert A K. clearbody n.
  change (interpretation (vips_bandjoin_const image [c]))
    with (interpretation image).
  destruct (interpretation_eqb (interpretation image) VIPS_INTERPRETATION_CMYK);
    cbn [negb];
    destruct (Z.eqb_spec n 2), (Z.eqb_spec n 4), (Z.ltb_spec 4 n);
    destruct (Z.eqb_spec (n + 1) 2), (Z.eqb_spec (n + 1) 4),
      (Z.ltb_spec 4 (n + 1));
    cbn; intros A K; try discriminate A; try reflexivity;
    exfalso; try specialize (K eq_refl); lia.
Qed.

(* ================================================================== *)
(** ** The request boundary *)

Section ExceptionHandler.

Local Open Scope string_scope.

Lemma append_cons c (s t : string) : String c s ++ t = String c (s ++ t).
Proof. reflexivity. Qed.



Lemma append_assoc (a b c : string) : (a ++ b) ++ c = a ++ b ++ c.
Proof.
  induction a as [|x a IH]; [reflexivity|].
  rewrite !append_cons. now rewrite IH.
Qed.



(** A stage that fails on the engine's side ends the request in a stage
    failure whose message names the stage and ends with the query. *)
Example process_stage_failure :
  ApiManager.process unit
    (fun _ => inr tt) (fun _ => inr rgb_2x1)
    [("blur", fun _ _ => inl "out of memory")] (fun _ _ => inr [])
    "blur=5" []
  = (ApiManager.Failed ApiManager.Stage "blur: out of memory [query: blur=5]",
     None).
Proof. reflexivity. Qed.

End ExceptionHandler.

(* ================================================================== *)
(** * Further properties *)

(* ================================================================== *)
(** ** Arithmetic *)

Section MoreArithmetic.

Lemma mul_overflow_as_builtin have_builtin a b :
  in_int a -> in_int b ->
  mul_overflow have_builtin a b = builtin_smul_overflow a b.
Proof.
  intros Ha Hb. destruct have_builtin; [reflexivity|].
  symmetry. apply (mul_overflow_branches_agree a b Ha Hb).
Qed.

Lemma wrap_congruent w z : 0 < w -> exists k, wrap w z = z + k * 2 ^ w.
Proof.
  intros Hw. unfold wrap.
  assert (E : 2 ^ w = 2 * 2 ^ (w - 1)).
  { replace w with (Z.succ (w - 1)) at 1 by lia. apply Z.pow_succ_r. lia. }
  assert (P : 0 < 2 ^ w) by (apply Z.pow_pos_nonneg; lia).
  exists (- ((z + 2 ^ (w - 1)) / 2 ^ w)).
  pose proof (Z.div_mod (z + 2 ^ (w - 1)) (2 ^ w)). lia.
Qed.

(** X1. Whether or not the product overflows, the value [mul_overflow]
    leaves in [*result] is a value of [int] that differs from the exact
    product by a multiple of 2^32, and the returned flag says exactly
    whether the two differ. *)
Theorem mul_overflow_stored_value (have_builtin : bool) (a b : Z) :
  in_int a -> in_int b ->
  in_int (snd (mul_overflow have_builtin a b)) /\
  (exists k, snd (mul_overflow have_builtin a b) = a * b + k * 2 ^ 32) /\
  (fst (mul_overflow have_builtin a b) = true <->
   snd (mul_overflow have_builtin a b) <> a * b).
Proof.
  intros Ha Hb. rewrite (mul_overflow_as_builtin _ _ _ Ha Hb).
  unfold builtin_smul_overflow. cbn [fst snd].
  split; [apply wrap32_in_int|]. split; [apply wrap_congruent; lia|].
  rewrite negb_true_iff, Z.eqb_neq. tauto.
Qed.

Lemma mul_overflow_stored_value_witness :
  (in_int (-65536) /\ in_int 65536) /\
  in_int (snd (mul_overflow false (-65536) 65536)) /\
  (exists k, snd (mul_overflow false (-65536) 65536)
             = -65536 * 65536 + k * 2 ^ 32) /\
  (fst (mul_overflow false (-65536) 65536) = true <->
   snd (mul_overflow false (-65536) 65536) <> -65536 * 65536).
Proof.
  assert (Ha : in_int (-65536)) by (unfold in_int, INT_MIN, INT_MAX; lia).
  assert (Hb : in_int 65536) by (unfold in_int, INT_MIN, INT_MAX; lia).
  split; [split; assumption|].
  exact (mul_overflow_stored_value false (-65536) 65536 Ha Hb).
Defined.

(** X2. Two factors of magnitude at most 46340 never overflow: the flag is
    false and the stored value is the product. *)
Theorem mul_overflow_small_factors (have_builtin : bool) (a b : Z) :
  Z.abs a <= 46340 -> Z.abs b <= 46340 ->
  mul_overflow have_builtin a b = (false, a * b).
Proof.
  intros Ha Hb.
  assert (Ia : in_int a) by (unfold in_int, INT_MIN, INT_MAX; lia).
  assert (Ib : in_int b) by (unfold in_int, INT_MIN, INT_MAX; lia).
  assert (Ip : in_int (a * b)).
  { unfold in_int, INT_MIN, INT_MAX. change (2 ^ 31) with 2147483648. nia. }
  rewrite (mul_overflow_as_builtin _ _ _ Ia Ib).
  unfold builtin_smul_overflow. rewrite (wrap32_small _ Ip).
  now rewrite Z.eqb_refl.
Qed.

Lemma mul_overflow_small_factors_witness :
  (Z.abs 46340 <= 46340 /\ Z.abs (-46340) <= 46340) /\
  mul_overflow true 46340 (-46340) = (false, 46340 * -46340).
Proof.
  assert (Ha : Z.abs 46340 <= 46340) by (cbn; lia).
  assert (Hb : Z.abs (-46340) <= 46340) by (cbn; lia).
  split; [split; assumption|].
  exact (mul_overflow_small_factors true 46340 (-46340) Ha Hb).
Defined.

Lemma calculate_position_exact iw ih ow oh pos :
  in_int (ow - iw) -> in_int (oh - ih) ->
  calculate_position iw ih ow oh pos
  = (grid_offset (column pos) iw ow, grid_offset (row pos) ih oh).
Proof.
  intros Hw Hh. rewrite calculate_position_switch. unfold grid_offset.
  rewrite !int_sub_exact, !int_div_2_exact by assumption. reflexivity.
Qed.

Lemma grid_offset_between line inner outer :
  Z.min 0 (outer - inner) <= grid_offset line inner outer
  <= Z.max 0 (outer - inner).
Proof.
  unfold grid_offset. destruct line; [lia| |lia].
  Z.to_euclidean_division_equations. lia.
Qed.

(** X3. The position lies between 0 and the surplus on both axes, whatever
    the anchor and the sign of the surplus; so an inner box no larger than
    the outer one is placed wholly inside it. *)
Theorem calculate_position_within
  (in_width in_height out_width out_height : Z) (pos : Position.t) :
  in_int (out_width - in_width) -> in_int (out_height - in_height) ->
  (Z.min 0 (out_width - in_width)
   <= fst (calculate_position in_width in_height out_width out_height pos)
   <= Z.max 0 (out_width - in_width)) /\
  (Z.min 0 (out_height - in_height)
   <= snd (calculate_position in_width in_height out_width out_height pos)
   <= Z.max 0 (out_height - in_height)) /\
  (in_width <= out_width -> in_height <= out_height ->
   0 <= fst (calculate_position in_width in_height out_width out_height pos) /\
   fst (calculate_position in_width in_height out_width out_height pos)
   + in_width <= out_width /\
   0 <= snd (calculate_position in_width in_height out_width out_height pos) /\
   snd (calculate_position in_width in_height out_width out_height pos)
   + in_height <= out_height).
Proof.
  intros Hw Hh. rewrite (calculate_position_exact _ _ _ _ pos Hw Hh).
  cbn [fst snd].
  pose proof (grid_offset_between (column pos) in_width out_width).
  pose proof (grid_offset_between (row pos) in_height out_height).
  lia.
Qed.

Lemma calculate_position_within_witness :
  (in_int (640 - 101) /\ in_int (480 - 100)) /\
  0 <= fst (calculate_position 101 100 640 480 Position.Bottom) /\
  fst (calculate_position 101 100 640 480 Position.Bottom) + 101 <= 640.
Proof.
  assert (Hw : in_int (640 - 101)) by (unfold in_int, INT_MIN, INT_MAX; lia).
  assert (Hh : in_int (480 - 100)) by (unfold in_int, INT_MIN, INT_MAX; lia).
  split; [split; assumption|].
  pose proof (proj2 (proj2 (calculate_position_within 101 100 640 480
                              Position.Bottom Hw Hh))) as T.
  assert (L : 101 <= 640) by lia. assert (M : 100 <= 480) by lia.
  destruct (T L M) as (T1 & T2 & _). split; assumption.
Defined.

Lemma column_opposite pos :
  column (opposite pos)
  = match column pos with Near => Far | Middle => Middle | Far => Near end.
Proof. destruct pos; reflexivity. Qed.

Lemma row_opposite pos :
  row (opposite pos)
  = match row pos with Near => Far | Middle => Middle | Far => Near end.
Proof. destruct pos; reflexivity. Qed.

(** X4. An anchor and the anchor across the centre share the surplus: their
    positions add up to it on each axis, but for the one unit an odd
    surplus loses when it is halved twice. *)
Theorem calculate_position_opposite
  (in_width in_height out_width out_height : Z) (pos : Position.t) :
  in_int (out_width - in_width) -> in_int (out_height - in_height) ->
  fst (calculate_position in_width in_height out_width out_height pos)
  + fst (calculate_position in_width in_height out_width out_height
           (opposite pos))
  = (out_width - in_width)
    - (if column pos is Middle then Z.rem (out_width - in_width) 2 else 0) /\
  snd (calculate_position in_width in_height out_width out_height pos)
  + snd (calculate_position in_width in_height out_width out_height
           (opposite pos))
  = (out_height - in_height)
    - (if row pos is Middle then Z.rem (out_height - in_height) 2 else 0).
Proof.
  intros Hw Hh. rewrite !(calculate_position_exact _ _ _ _ _ Hw Hh).
  cbn [fst snd]. rewrite column_opposite, row_opposite. unfold grid_offset.
  split.
  - destruct (column pos); try lia. Z.to_euclidean_division_equations. lia.
  - destruct (row pos); try lia. Z.to_euclidean_division_equations. lia.
Qed.

Lemma calculate_position_opposite_witness :
  (in_int (10 - 3) /\ in_int (10 - 4)) /\
  fst (calculate_position 3 4 10 10 Position.Top)
  + fst (calculate_position 3 4 10 10 Position.Bottom) = 6 /\
  snd (calculate_position 3 4 10 10 Position.Top)
  + snd (calculate_position 3 4 10 10 Position.Bottom) = 6.
Proof.
  assert (Hw : in_int (10 - 3)) by (unfold in_int, INT_MIN, INT_MAX; lia).
  assert (Hh : in_int (10 - 4)) by (unfold in_int, INT_MIN, INT_MAX; lia).
  split; [split; assumption|].
  exact (calculate_position_opposite 3 4 10 10 Position.Top Hw Hh).
Defined.

(** X5. On the angles it is meant for, the multiples of 90 from 0 up to but
    not including 360, [resolve_angle_rotation] gives the rotation of that
    many degrees, and every rotation is the image of its own degrees; an
    angle of a full turn or more is not reduced and gives no rotation. *)
Theorem resolve_angle_rotation_degrees :
  (forall angle : Z,
      0 <= angle < 360 -> Z.rem angle 90 = 0 ->
      angle_degrees (resolve_angle_rotation angle) = angle) /\
  (forall rotation : VipsAngle,
      resolve_angle_rotation (angle_degrees rotation) = rotation) /\
  (forall angle : Z,
      360 <= angle -> resolve_angle_rotation angle = VIPS_ANGLE_D0).
Proof.
  split; [|split].
  - intros angle R M.
    assert (C : angle = 0 \/ angle = 90 \/ angle = 180 \/ angle = 270).
    { Z.to_euclidean_division_equations. lia. }
    destruct C as [->|[->|[->| ->]]]; reflexivity.
  - intros []; reflexivity.
  - intros angle H. unfold resolve_angle_rotation.
    destruct (Z.eqb_spec angle 90); [lia|].
    destruct (Z.eqb_spec angle 180); [lia|].
    destruct (Z.eqb_spec angle 270); [lia|reflexivity].
Qed.

Lemma resolve_angle_rotation_degrees_witness :
  (0 <= 270 < 360 /\ Z.rem 270 90 = 0) /\
  angle_degrees (resolve_angle_rotation 270) = 270 /\
  resolve_angle_rotation 450 = VIPS_ANGLE_D0.
Proof.
  assert (R : 0 <= 270 < 360) by lia.
  assert (M : Z.rem 270 90 = 0) by reflexivity.
  assert (F : 360 <= 450) by lia.
  split; [split; assumption|]. split.
  - exact (proj1 resolve_angle_rotation_degrees 270 R M).
  - exact (proj2 (proj2 resolve_angle_rotation_degrees) 450 F).
Defined.

End MoreArithmetic.

(* ================================================================== *)
(** ** escape_string *)

Section EscapeString.

Local Open Scope string_scope.

Lemma escape_string_cons c rest :
  escape_string (String c rest) = escape_char c ++ escape_string rest.
Proof. reflexivity. Qed.

Lemma append_nil_l (s : string) : "" ++ s = s.
Proof. reflexivity. Qed.

(** The cases of the switch: one of the six replaced characters, or any
    other, which is written as it is. *)
Lemma escape_char_cases c :
  (In c escaped_chars /\ escape_char c <> String c "") \/
  (~ In c escaped_chars /\ escape_char c = String c "" /\
   Ascii.eqb c backslash = false).
Proof.
  unfold escape_char, escaped_chars.
  destruct (Ascii.eqb_spec c "000") as [->|N0];
    [left; split; [cbn; tauto|discriminate]|].
  destruct (Ascii.eqb_spec c "001") as [->|N1];
    [left; split; [cbn; tauto|discriminate]|].
  destruct (Ascii.eqb_spec c "010") as [->|N2];
    [left; split; [cbn; tauto|discriminate]|].
  destruct (Ascii.eqb_spec c "031") as [->|N3];
    [left; split; [cbn; tauto|discriminate]|].
  destruct (Ascii.eqb_spec c double_quote) as [->|N4];
    [left; split; [cbn; tauto|discriminate]|].
  destruct (Ascii.eqb_spec c backslash) as [->|N5];
    [left; split; [cbn; tauto|discriminate]|].
  right. split; [|split; reflexivity].
  cbn. intros [E|[E|[E|[E|[E|[E|[]]]]]]]; congruence.
Qed.

(** X11. [escape_string] works character by character: the escape of a
    concatenation is the concatenation of the escapes, and a string with
    none of the six replaced characters is returned as it is. *)
Theorem escape_string_append :
  (forall s t : string,
      escape_string (s ++ t) = escape_string s ++ escape_string t) /\
  (forall s : string,
      (forall c, In c escaped_chars -> occurs c s = false) ->
      escape_string s = s).
Proof.
  split.
  - intros s t. induction s as [|c s IH]; [reflexivity|].
    rewrite append_cons, !escape_string_cons, IH. now rewrite append_assoc.
  - induction s as [|c s IH]; intros H; [reflexivity|].
    rewrite escape_string_cons.
    destruct (escape_char_cases c) as [[Hin _]|(_ & -> & _)].
    + specialize (H c Hin). cbn in H. now rewrite Ascii.eqb_refl in H.
    + rewrite append_cons, append_nil_l. f_equal. apply IH.
      intros d Hd. specialize (H d Hd). cbn in H.
      now apply orb_false_iff in H.
Qed.

Lemma escape_string_append_witness :
  (forall c, In c escaped_chars -> occurs c "w=100&h=50" = false) /\
  escape_string "w=100&h=50" = "w=100&h=50".
Proof.
  assert (H : forall c, In c escaped_chars -> occurs c "w=100&h=50" = false).
  { intros c Hc. cbn in Hc.
    destruct Hc as [<-|[<-|[<-|[<-|[<-|[<-|[]]]]]]]; reflexivity. }
  split; [exact H|].
  exact (proj2 escape_string_append "w=100&h=50" H).
Defined.

Lemma unescape_string_plain c rest :
  Ascii.eqb c backslash = false ->
  unescape_string (String c rest) = String c <$> unescape_string rest.
Proof. intros E. cbn [unescape_string]. now rewrite E. Qed.

(** Reading back what was written for one character gives the character. *)
Lemma unescape_escape_char c rest :
  unescape_string (escape_char c ++ rest)
  = String c <$> unescape_string rest.
Proof.
  destruct (escape_char_cases c) as [[Hin _]|(_ & E & B)].
  - cbn in Hin.
    destruct Hin as [<-|[<-|[<-|[<-|[<-|[<-|[]]]]]]]; reflexivity.
  - rewrite E, append_cons, append_nil_l. now apply unescape_string_plain.
Qed.

(** X12. Escaping loses nothing: reading the output back, a backslash
    opening an escape and any other character standing for itself, gives
    the original string; so two different strings never have the same
    escape. *)
Theorem escape_string_round_trip :
  (forall s : string, unescape_string (escape_string s) = Some s) /\
  (forall s t : string, escape_string s = escape_string t -> s = t).
Proof.
  assert (R : forall s, unescape_string (escape_string s) = Some s).
  { induction s as [|c s IH]; [reflexivity|].
    now rewrite escape_string_cons, unescape_escape_char, IH. }
  split; [exact R|].
  intros s t E. apply (f_equal unescape_string) in E.
  rewrite !R in E. congruence.
Qed.

Lemma escape_string_round_trip_witness :
  escape_string "a\b" = "a\\b" /\
  unescape_string (escape_string "a\b") = Some "a\b" /\
  "a\b" = "a\b".
Proof.
  split; [reflexivity|]. split.
  - exact (proj1 escape_string_round_trip "a\b").
  - exact (proj2 escape_string_round_trip "a\b" "a\b" eq_refl).
Defined.

Lemma occurs_append c s t : occurs c (s ++ t) = occurs c s || occurs c t.
Proof.
  induction s as [|d s IH]; [reflexivity|].
  rewrite append_cons. cbn [occurs]. now rewrite IH, orb_assoc.
Qed.

Lemma quotes_escaped_escape_char c rest :
  (forall b, quotes_escaped b rest = true) ->
  forall b, quotes_escaped b (escape_char c ++ rest) = true.
Proof.
  intros IH b.
  destruct (escape_char_cases c) as [[Hin _]|(Hout & -> & B)].
  - cbn in Hin.
    destruct Hin as [<-|[<-|[<-|[<-|[<-|[<-|[]]]]]]];
      match goal with
      | |- quotes_escaped _ (escape_char ?c ++ _) = _ =>
          let piece := eval vm_compute in (escape_char c) in
          change (escape_char c) with piece
      end;
      rewrite ?append_cons, append_nil_l; cbn [quotes_escaped];
      repeat match goal with
             | |- context [Ascii.eqb ?x ?y] =>
                 let r := eval vm_compute in (Ascii.eqb x y) in
                 change (Ascii.eqb x y) with r
             end;
      cbn [andb]; apply IH.
  - rewrite append_cons, append_nil_l. cbn [quotes_escaped].
    destruct (Ascii.eqb_spec c double_quote) as [->|_].
    + exfalso. apply Hout. cbn. tauto.
    + apply IH.
Qed.

(** X13. The output of [escape_string] never holds a NUL, a byte 1, a line
    feed or a byte 31, and every double quote in it comes right after a
    backslash. *)
Theorem escape_string_no_control (s : string) :
  occurs "000" (escape_string s) = false /\
  occurs "001" (escape_string s) = false /\
  occurs "010" (escape_string s) = false /\
  occurs "031" (escape_string s) = false /\
  quotes_escaped false (escape_string s) = true.
Proof.
  split; [|split; [|split; [|split]]].
  5: { assert (G : forall b, quotes_escaped b (escape_string s) = true).
       { induction s as [|c s IH]; [reflexivity|].
         rewrite escape_string_cons.
         now apply quotes_escaped_escape_char. }
       apply G. }
  all: induction s as [|c s IH]; [reflexivity|];
    rewrite escape_string_cons, occurs_append, IH, orb_false_r;
    destruct (escape_char_cases c) as [[Hin _]|(Hout & -> & _)];
    [ cbn in Hin; destruct Hin as [<-|[<-|[<-|[<-|[<-|[<-|[]]]]]]];
      reflexivity
    | cbn [occurs]; rewrite orb_false_r;
      match goal with
      | |- Ascii.eqb ?d c = false =>
          destruct (Ascii.eqb_spec d c) as [<-|]; [|reflexivity];
          exfalso; apply Hout; cbn; tauto
      end ].
Qed.

(** Each replaced character with what is written for it. *)
Example escape_string_table :
  escape_string (String "000" (String "001" (String "010" (String "031" ""))))
  = "\u0000\u0001\n\u001f" /\
  escape_string (String double_quote (String backslash "x"))
  = String backslash (String double_quote "\\x") /\
  escape_string (String "002" "") = String "002" "".
Proof. repeat split. Qed.

End EscapeString.

(* ================================================================== *)
(** ** Formats and loaders *)

Section MoreFormats.

Local Open Scope string_scope.

(** X6. No two image types share an identifier. *)
Theorem image_type_id_injective (s t : ImageType.t) :
  image_type_id s = image_type_id t -> s = t.
Proof. destruct s, t; intros E; (reflexivity || discriminate E). Qed.

Lemma image_type_id_injective_witness :
  image_type_id ImageType.Heif = "heif" /\
  ImageType.Heif = ImageType.Heif.
Proof.
  assert (E : image_type_id ImageType.Heif = image_type_id ImageType.Heif)
    by reflexivity.
  split; [reflexivity|].
  exact (image_type_id_injective ImageType.Heif ImageType.Heif E).
Defined.

(** X7. Among the five outputs with a saver the extension tells the output:
    no two of them share one.  Any further output shares [.png] with Png. *)
Theorem determine_image_extension_injective :
  (forall o p : Output.t,
      In o encodable_outputs -> In p encodable_outputs ->
      determine_image_extension o = determine_image_extension p -> o = p) /\
  (forall tag : Z,
      determine_image_extension (Output.Other tag)
      = determine_image_extension Output.Png).
Proof.
  split; [|reflexivity].
  intros o p Ho Hp E. cbn in Ho, Hp.
  destruct Ho as [<-|[<-|[<-|[<-|[<-|[]]]]]];
    destruct Hp as [<-|[<-|[<-|[<-|[<-|[]]]]]];
    (reflexivity || discriminate E).
Qed.

Lemma determine_image_extension_injective_witness :
  In Output.Gif encodable_outputs /\
  determine_image_extension Output.Gif = ".gif" /\
  Output.Gif = Output.Gif.
Proof.
  assert (H : In Output.Gif encodable_outputs) by (cbn; tauto).
  split; [exact H|]. split; [reflexivity|].
  exact (proj1 determine_image_extension_injective Output.Gif Output.Gif
           H H eq_refl).
Defined.

(** X10. The types that support an alpha channel are Png, Webp, Tiff and
    Gif, and each of them is saved in its own format: the extension of its
    output is a dot and its identifier.  Only a Jpeg image is saved as
    Jpeg. *)
Theorem support_alpha_channel_keeps_format (image_type : ImageType.t) :
  (support_alpha_channel image_type = true <-> In image_type alpha_types) /\
  (support_alpha_channel image_type = true ->
   determine_image_extension (to_output image_type)
   = "." ++ image_type_id image_type) /\
  (to_output image_type = Output.Jpeg <-> image_type = ImageType.Jpeg).
Proof.
  destruct image_type; cbn; repeat split; intros;
    try reflexivity; try discriminate; try tauto;
    repeat match goal with
           | H : _ \/ _ |- _ => destruct H
           | H : False |- _ => destruct H
           end; discriminate.
Qed.

Lemma support_alpha_channel_keeps_format_witness :
  support_alpha_channel ImageType.Webp = true /\
  determine_image_extension (to_output ImageType.Webp) = ".webp".
Proof.
  assert (H : support_alpha_channel ImageType.Webp = true) by reflexivity.
  split; [exact H|].
  exact (proj1 (proj2 (support_alpha_channel_keeps_format ImageType.Webp)) H).
Defined.

Lemma is_paged_type_In image_type :
  is_paged_type image_type = true <-> In image_type paged_types.
Proof.
  destruct image_type; cbn; split; intros H;
    try reflexivity; try discriminate; try tauto;
    repeat match goal with
           | H : _ \/ _ |- _ => destruct H
           | H : False |- _ => destruct H
           end; discriminate.
Qed.

(** A name begins with at most one recognised prefix. *)
Lemma loader_prefix_unique loader p q s t :
  In (p, s) loader_prefixes -> In (q, t) loader_prefixes ->
  String.prefix p loader = true -> String.prefix q loader = true ->
  p = q.
Proof.
  intros Hp Hq Pp Pq.
  destruct (prefix_comparable _ _ _ Pp Pq) as [C|C]; revert C; clear Pp Pq;
    cbn in Hp, Hq;
    repeat (destruct Hp as [Hp|Hp]; [injection Hp as <- <-|]);
    try destruct Hp;
    repeat (destruct Hq as [Hq|Hq]; [injection Hq as <- <-|]);
    try destruct Hq;
    intros C; first [reflexivity | vm_compute in C; discriminate C].
Qed.

(** The classification, read through the table of prefixes. *)
Lemma determine_image_type_by_table loader p ty :
  In (p, ty) loader_prefixes -> String.prefix p loader = true ->
  determine_image_type loader = ty /\
  image_loader_supports_page loader = is_paged_type ty.
Proof.
  intros Hin P.
  assert (U : forall q, In q (map fst loader_prefixes) -> q <> p ->
                        String.prefix q loader = false).
  { intros q Hq N. destruct (String.prefix q loader) eqn:Q; [|reflexivity].
    apply in_map_iff in Hq as ([q' t] & E & Hq). cbn in E. subst q'.
    exfalso. apply N. exact (loader_prefix_unique _ _ _ _ _ Hq Hin Q P). }
  unfold determine_image_type, image_loader_supports_page.
  rewrite !rfind0_is_0_prefix.
  cbn in Hin.
  repeat (destruct Hin as [Hin|Hin];
          [injection Hin as <- <-;
           rewrite P;
           repeat match goal with
                  | |- context [String.prefix ?q loader] =>
                      rewrite (U q) by (cbn; first [tauto | discriminate])
                  end;
           split; reflexivity|]).
  destruct Hin.
Qed.

Lemma determine_image_type_no_prefix loader :
  (forall p ty, In (p, ty) loader_prefixes -> String.prefix p loader = false) ->
  determine_image_type loader = ImageType.Unknown /\
  image_loader_supports_page loader = false.
Proof.
  intros N. unfold determine_image_type, image_loader_supports_page.
  rewrite !rfind0_is_0_prefix.
  rewrite (N "VipsForeignLoadJpeg" ImageType.Jpeg) by (cbn; tauto).
  rewrite (N "VipsForeignLoadPng" ImageType.Png) by (cbn; tauto).
  rewrite (N "VipsForeignLoadWebp" ImageType.Webp) by (cbn; tauto).
  rewrite (N "VipsForeignLoadTiff" ImageType.Tiff) by (cbn; tauto).
  rewrite (N "VipsForeignLoadGif" ImageType.Gif) by (cbn; tauto).
  rewrite (N "VipsForeignLoadSvg" ImageType.Svg) by (cbn; tauto).
  rewrite (N "VipsForeignLoadPdf" ImageType.Pdf) by (cbn; tauto).
  rewrite (N "VipsForeignLoadHeif" ImageType.Heif) by (cbn; tauto).
  rewrite (N "VipsForeignLoadMagick" ImageType.Magick) by (cbn; tauto).
  split; reflexivity.
Qed.

Lemma some_prefix_or_none loader :
  (exists p ty, In (p, ty) loader_prefixes /\ String.prefix p loader = true) \/
  (forall p ty, In (p, ty) loader_prefixes -> String.prefix p loader = false).
Proof.
  induction loader_prefixes as [|[q t] table IH].
  - right. intros p ty [].
  - destruct (String.prefix q loader) eqn:Q.
    + left. exists q, t. split; [left; reflexivity|exact Q].
    + destruct IH as [(p & ty & Hin & P)|N].
      * left. exists p, ty. split; [right; exact Hin|exact P].
      * right. intros p ty [E|Hin]; [now injection E as <- <-|eauto].
Qed.

(** X8. The two classifications of a loader name agree: the loader reads
    several pages exactly when the image type found for it is Pdf, Gif,
    Tiff, Webp, Heif or Magick. *)
Theorem image_loader_supports_page_by_type (loader : string) :
  image_loader_supports_page loader = true <->
  In (determine_image_type loader) paged_types.
Proof.
  destruct (some_prefix_or_none loader) as [(p & ty & Hin & P)|N].
  - destruct (determine_image_type_by_table _ _ _ Hin P) as [-> ->].
    apply is_paged_type_In.
  - destruct (determine_image_type_no_prefix _ N) as [-> ->].
    rewrite <- is_paged_type_In. reflexivity.
Qed.

Lemma image_loader_supports_page_by_type_witness :
  image_loader_supports_page "VipsForeignLoadGifFile" = true /\
  In (determine_image_type "VipsForeignLoadGifFile") paged_types.
Proof.
  assert (H : image_loader_supports_page "VipsForeignLoadGifFile" = true)
    by reflexivity.
  split; [exact H|].
  exact (proj1 (image_loader_supports_page_by_type "VipsForeignLoadGifFile") H).
Defined.

(** X9. A name is given a type other than Unknown only when it begins with
    the prefix of that type; so a name of fewer than 18 characters, the
    empty name included, is Unknown and reads no pages. *)
Theorem determine_image_type_inversion (loader : string) :
  (forall ty,
      determine_image_type loader = ty -> ty <> ImageType.Unknown ->
      exists p rest, In (p, ty) loader_prefixes /\ loader = p ++ rest) /\
  ((String.length loader < 18)%nat ->
   determine_image_type loader = ImageType.Unknown /\
   image_loader_supports_page loader = false).
Proof.
  split.
  - intros ty E N.
    destruct (some_prefix_or_none loader) as [(p & ty' & Hin & P)|No].
    + destruct (determine_image_type_by_table _ _ _ Hin P) as [E' _].
      rewrite E' in E. subst ty'.
      destruct (prefix_split _ _ P) as [rest ->]. eauto.
    + destruct (determine_image_type_no_prefix _ No) as [E' _]. congruence.
  - intros L. apply determine_image_type_no_prefix. intros p ty Hin.
    destruct (String.prefix p loader) eqn:P; [|reflexivity].
    apply prefix_length in P. exfalso. cbn in Hin.
    repeat (destruct Hin as [Hin|Hin];
            [injection Hin as <- <-; cbn in P; lia|]).
    destruct Hin.
Qed.

Lemma determine_image_type_inversion_witness :
  (String.length "VipsForeignLoad" < 18)%nat /\
  determine_image_type "VipsForeignLoad" = ImageType.Unknown /\
  image_loader_supports_page "VipsForeignLoad" = false.
Proof.
  assert (L : (String.length "VipsForeignLoad" < 18)%nat) by (cbn; lia).
  split; [exact L|].
  exact (proj2 (determine_image_type_inversion "VipsForeignLoad") L).
Defined.

End MoreFormats.

(* ================================================================== *)
(** ** Engine versions *)

Section EngineVersion.

Context `{engine : Engine}.

Lemma VIPS_VERSION_AT_LEAST_le major minor patch :
  VIPS_VERSION_AT_LEAST major minor patch = true <->
  version_le (major, minor, patch) engine_version.
Proof.
  unfold VIPS_VERSION_AT_LEAST, version_le, engine_version.
  rewrite !orb_true_iff, !andb_true_iff, !Z.ltb_lt, !Z.eqb_eq, Z.leb_le.
  tauto.
Qed.

(** X14. [VIPS_VERSION_AT_LEAST] compares versions by major, then minor,
    then patch number: it holds of the engine's own version, and once it
    holds of a version it holds of every earlier one, and of no version
    later than the engine's. *)
Theorem VIPS_VERSION_AT_LEAST_downward (v w : Z * Z * Z) :
  (let '(a, b, c) := engine_version in VIPS_VERSION_AT_LEAST a b c = true) /\
  (version_le v w ->
   (let '(a, b, c) := w in VIPS_VERSION_AT_LEAST a b c = true) ->
   let '(a, b, c) := v in VIPS_VERSION_AT_LEAST a b c = true) /\
  (version_le engine_version v -> v <> engine_version ->
   let '(a, b, c) := v in VIPS_VERSION_AT_LEAST a b c = false).
Proof.
  destruct v as [[a b] c], w as [[x y] z].
  split; [|split].
  - unfold engine_version. apply VIPS_VERSION_AT_LEAST_le.
    unfold version_le, engine_version. lia.
  - rewrite !VIPS_VERSION_AT_LEAST_le. unfold version_le, engine_version. lia.
  - intros L N. apply not_true_is_false. rewrite VIPS_VERSION_AT_LEAST_le.
    revert L N. unfold version_le, engine_version. intros L N G.
    apply N. f_equal; [f_equal|]; lia.
Qed.

End EngineVersion.

Lemma VIPS_VERSION_AT_LEAST_downward_witness :
  version_le (8, 9, 0) (8, 10, 2) /\
  @VIPS_VERSION_AT_LEAST (libvips 8 10 6) 8 9 0 = true.
Proof.
  assert (L : version_le (8, 9, 0) (8, 10, 2)) by (cbn; lia).
  assert (G : @VIPS_VERSION_AT_LEAST (libvips 8 10 6) 8 10 2 = true)
    by reflexivity.
  split; [exact L|].
  exact (proj1 (proj2 (@VIPS_VERSION_AT_LEAST_downward (libvips 8 10 6)
                         (8, 9, 0) (8, 10, 2))) L G).
Defined.

(* ================================================================== *)
(** ** More on the JSON report *)

Section MoreImageToJson.

Context `{engine : Engine}.

Local Open Scope string_scope.

Ltac run_report H :=
  unfold image_to_json_members in H;
  repeat match type of H with
         | (?o ≫= _) = Some _ =>
             let j := fresh "json" in
             let W := fresh "W" in
             destruct o as [j|] eqn:W;
             [cbn [mbind option_bind] in H | discriminate H]
         end;
  injection H as <-;
  repeat match goal with
         | W : put_if _ _ _ _ = Some _ |- _ =>
             apply put_if_written in W; destruct W as [-> ?]
         end.

Lemma image_to_json_is_Some image image_type :
  is_Some (image_to_json image image_type) <->
  is_Some (image_to_json_members image image_type).
Proof. unfold image_to_json. apply fmap_is_Some. Qed.

Lemma present_of_guard {A : Type} image name (read : option A)
  (wrap : A -> json_value) :
  (nonzero (get_typeof image name) = true -> is_Some (wrap <$> read)) ->
  field_present image name -> is_Some read.
Proof.
  intros G P. apply nonzero_get_typeof in P.
  apply (fmap_is_Some wrap), G, P.
Qed.

Lemma exif_orientation_defined image orientation :
  exif_orientation image = Some orientation ->
  field_present image VIPS_META_ORIENTATION ->
  is_Some (get_int image VIPS_META_ORIENTATION).
Proof.
  unfold exif_orientation. intros E P.
  apply nonzero_get_typeof in P. rewrite P in E. eauto.
Qed.

(** X15. [image_to_json] returns a report exactly for the images on which
    none of its typed getters throws: each metadata field it reads, when
    present, holds a value of the kind read (an [int]; a string for the
    chroma subsampling; the array or the [int] of the delays).  On every
    other image it throws; the density never makes it throw. *)
Theorem image_to_json_defined_iff image image_type :
  is_Some (image_to_json image image_type) <-> report_defined image.
Proof.
  rewrite image_to_json_is_Some. split.
  - intros [members H]. run_report H. unfold report_defined.
    repeat split;
      first
        [ eapply present_of_guard; eassumption
        | eapply exif_orientation_defined; eassumption
        | intros C; eapply (fmap_is_Some JNumber); auto
        | intros P; apply nonzero_get_typeof in P; auto ].
  - apply image_to_json_members_defined.
Qed.

(** A string where an [int] is read makes the report throw. *)
Example image_to_json_throws :
  @image_to_json (libvips 8 9 1)
    {| width := 1; height := 1; interpretation := VIPS_INTERPRETATION_sRGB;
       format := VIPS_FORMAT_UCHAR; xres := 1%float; planes := [[0]];
       metadata := {[ "n-pages" := MetaString "two" ]} |}
    ImageType.Png
  = None.
Proof. vm_compute. reflexivity. Qed.

End MoreImageToJson.

(* ================================================================== *)
(** ** Reading a report back *)

Section ReadBack.

Local Open Scope string_scope.

Lemma append_nil_r (s : string) : s ++ "" = s.
Proof.
  induction s as [|c s IH]; [reflexivity|]. now rewrite append_cons, IH.
Qed.

Lemma string_length_append (s t : string) :
  String.length (s ++ t) = (String.length s + String.length t)%nat.
Proof.
  induction s as [|c s IH]; [reflexivity|].
  rewrite append_cons. cbn [String.length]. now rewrite IH.
Qed.

Lemma plain_char_not_quote c :
  plain_char c = true -> Ascii.eqb c double_quote = false.
Proof.
  unfold plain_char. destruct (Ascii.eqb c double_quote); [discriminate|easy].
Qed.

Lemma read_string_plain body rest :
  plain body = true ->
  read_string (body ++ String double_quote rest) = Some (body, rest).
Proof.
  induction body as [|c body IH]; cbn [plain]; intros H.
  - rewrite append_nil_l. cbn [read_string]. now rewrite Ascii.eqb_refl.
  - apply andb_true_iff in H as [Hc Hb].
    rewrite append_cons. cbn [read_string].
    now rewrite (plain_char_not_quote _ Hc), Hc, (IH Hb).
Qed.

(** A number character opens neither a string nor an array nor a boolean,
    and is no separator. *)
Lemma number_char_other c :
  number_char c = true ->
  Ascii.eqb c double_quote = false /\ Ascii.eqb c "[" = false /\
  Ascii.eqb c "," = false /\ Ascii.eqb c "]" = false /\
  c <> "t"%char /\ c <> "f"%char.
Proof.
  intros H.
  repeat split;
    first
      [ match goal with
        | |- Ascii.eqb c ?d = false =>
            destruct (Ascii.eqb_spec c d) as [->|]; [discriminate H|reflexivity]
        end
      | intros ->; discriminate H ].
Qed.

Lemma string_of_uint_number d :
  number_text (NilEmpty.string_of_uint d) = true.
Proof.
  induction d; cbn [NilEmpty.string_of_uint number_text];
    [reflexivity| rewrite IHd; reflexivity ..].
Qed.

Lemma nilzero_uint_number d :
  number_text (NilZero.string_of_uint d) = true /\
  NilZero.string_of_uint d <> "".
Proof.
  destruct d; (split; [|discriminate]);
    first [reflexivity | apply string_of_uint_number].
Qed.

Lemma show_int_number z :
  number_text (show_int z) = true /\ show_int z <> "".
Proof.
  unfold show_int, NilZero.string_of_int.
  destruct (Z.to_int z) as [d|d].
  - apply nilzero_uint_number.
  - split; [|discriminate]. cbn [number_text].
    now rewrite (proj1 (nilzero_uint_number d)).
Qed.

Lemma int_of_text_show z : int_of_text (show_int z) = Some z.
Proof.
  unfold int_of_text, show_int.
  rewrite NilZero.isi.
  - now rewrite DecimalZ.of_to.
  - destruct z; cbn; try discriminate.
    intros E. injection E. apply Unsigned.to_uint_nonnil.
  - destruct z; cbn; try discriminate.
    intros E. injection E. apply Unsigned.to_uint_nonnil.
Qed.

Lemma separated_no_number rest :
  separated rest ->
  exists c after, rest = String c after /\ number_char c = false.
Proof.
  intros (c & after & -> & [-> | ->]); eauto.
Qed.

Lemma read_number_text_app token rest :
  number_text token = true -> separated rest ->
  read_number_text (token ++ rest) = (token, rest).
Proof.
  intros T S. induction token as [|c token IH].
  - destruct (separated_no_number _ S) as (d & after & -> & N).
    rewrite append_nil_l. cbn [read_number_text]. now rewrite N.
  - cbn [number_text] in T. apply andb_true_iff in T as [Tc Tt].
    rewrite append_cons. cbn [read_number_text]. now rewrite Tc, (IH Tt).
Qed.

Lemma read_items_scan more rest token items :
  number_text more = true ->
  read_items (more ++ rest) token items = read_items rest (token ++ more) items.
Proof.
  revert token. induction more as [|c more IH]; intros token T.
  - now rewrite append_nil_l, append_nil_r.
  - cbn [number_text] in T. apply andb_true_iff in T as [Tc Tm].
    destruct (number_char_other _ Tc) as (_ & _ & C1 & C2 & _).
    rewrite append_cons. cbn [read_items]. rewrite C1, C2, Tc, (IH _ Tm).
    now rewrite append_assoc, append_cons, append_nil_l.
Qed.

Lemma concat_cons2 sep (x y : string) rest :
  String.concat sep (x :: y :: rest) = x ++ sep ++ String.concat sep (y :: rest).
Proof. reflexivity. Qed.

Lemma concat_head sep (x : string) l rest :
  exists tail, String.concat sep (x :: l) ++ rest = x ++ tail.
Proof.
  destruct l as [|y l]; [now exists rest|].
  exists (sep ++ String.concat sep (y :: l) ++ rest).
  now rewrite concat_cons2, !append_assoc.
Qed.

Lemma read_items_list l z items rest :
  read_items (String.concat "," (map show_int (z :: l)) ++ String "]" rest)
    "" items
  = Some ((items ++ z :: l)%list, rest).
Proof.
  revert z items. induction l as [|y l IH]; intros z items.
  - cbn [map String.concat].
    rewrite read_items_scan by apply show_int_number.
    cbn [read_items]. change (Ascii.eqb "]" ",") with false.
    change (Ascii.eqb "]" "]") with true. cbv iota.
    now rewrite append_nil_l, int_of_text_show.
  - change (map show_int (z :: y :: l))
      with (show_int z :: show_int y :: map show_int l).
    rewrite concat_cons2, !append_assoc.
    rewrite read_items_scan by apply show_int_number.
    change ("," ++ String.concat "," (show_int y :: map show_int l)
            ++ String "]" rest)
      with (String "," (String.concat "," (map show_int (y :: l))
                        ++ String "]" rest)).
    cbn [read_items]. change (Ascii.eqb "," ",") with true. cbv iota.
    rewrite append_nil_l, int_of_text_show, IH.
    now rewrite <- app_assoc.
Qed.

Lemma read_array_render l rest :
  read_array (String.concat "," (map show_int l) ++ String "]" rest)
  = Some (l, rest).
Proof.
  destruct l as [|z l].
  - cbn [map String.concat]. rewrite append_nil_l. cbn [read_array].
    now change (Ascii.eqb "]" "]") with true.
  - pose proof (read_items_list l z [] rest) as R.
    destruct (String.concat "," (map show_int (z :: l)) ++ String "]" rest)
      as [|c text] eqn:E.
    + cbn in R. discriminate R.
    + cbn [read_array].
      assert (N : Ascii.eqb c "]" = false).
      { destruct (show_int_number z) as [T Z0].
        destruct (show_int z) as [|d t] eqn:S; [contradiction|].
        cbn [number_text] in T. apply andb_true_iff in T as [Td _].
        assert (c = d).
        { destruct (concat_head "," (show_int z) (map show_int l)
                      (String "]" rest)) as [tail H].
          change (show_int z :: map show_int l)
            with (map show_int (z :: l)) in H.
          rewrite H, S, append_cons in E. now injection E. }
        subst d. now destruct (number_char_other _ Td) as (_ & _ & _ & C & _). }
      now rewrite N.
Qed.

Lemma render_string_app s rest :
  render_value (JString s) ++ rest
  = String double_quote (s ++ String double_quote rest).
Proof.
  unfold render_value, dquote.
  change (ascii_of_nat 34) with double_quote.
  now rewrite !append_assoc.
Qed.

Lemma read_value_number z rest :
  separated rest -> read_value (show_int z ++ rest) = Some (JNumber z, rest).
Proof.
  intros S. pose proof (read_number_text_app _ _ (proj1 (show_int_number z)) S)
    as R. pose proof (int_of_text_show z) as I.
  destruct (show_int_number z) as [T Z0].
  destruct (show_int z) as [|c t] eqn:E; [contradiction|].
  cbn [number_text] in T. apply andb_true_iff in T as [Tc _].
  destruct (number_char_other _ Tc) as (C1 & C2 & _ & _ & C3 & C4).
  rewrite append_cons in *. cbn [read_value]. rewrite C1, C2.
  cbn [String.prefix].
  destruct (ascii_dec "t" c) as [<-|_]; [contradiction|].
  destruct (ascii_dec "f" c) as [<-|_]; [contradiction|].
  now rewrite R, I.
Qed.

Lemma read_value_true rest :
  read_value ("true" ++ rest) = Some (JBool true, rest).
Proof.
  pose proof (prefix_append "true" rest) as P.
  change ("true" ++ rest)
    with (String "t" (String "r" (String "u" (String "e" rest)))) in *.
  cbn [read_value]. change (Ascii.eqb "t" double_quote) with false.
  change (Ascii.eqb "t" "[") with false. cbv iota. now rewrite P.
Qed.

Lemma read_value_false rest :
  read_value ("false" ++ rest) = Some (JBool false, rest).
Proof.
  pose proof (prefix_append "false" rest) as P.
  change ("false" ++ rest)
    with (String "f" (String "a" (String "l" (String "s" (String "e" rest)))))
    in *.
  cbn [read_value]. change (Ascii.eqb "f" double_quote) with false.
  change (Ascii.eqb "f" "[") with false. cbv iota. rewrite P.
  cbn [String.prefix].
  destruct (ascii_dec "t" "f") as [E|_]; [discriminate E|reflexivity].
Qed.

Lemma read_value_render v rest :
  plain_value v = true -> separated rest ->
  read_value (render_value v ++ rest) = Some (v, rest).
Proof.
  intros P S. destruct v as [s|z|b|items].
  - rewrite render_string_app. cbn [read_value].
    rewrite Ascii.eqb_refl. now rewrite (read_string_plain _ _ P).
  - now apply read_value_number.
  - destruct b; [apply read_value_true|apply read_value_false].
  - assert (E : render_value (JArray items) ++ rest
                = String "[" (String.concat "," (map show_int items)
                              ++ String "]" rest)).
    { cbn [render_value]. now rewrite !append_assoc. }
    rewrite E. cbn [read_value].
    change (Ascii.eqb "[" double_quote) with false.
    change (Ascii.eqb "[" "[") with true. cbv iota.
    now rewrite read_array_render.
Qed.

Lemma render_member_app key value rest :
  render_member (key, value) ++ rest
  = String double_quote
      (key ++ String double_quote (String ":" (render_value value ++ rest))).
Proof.
  unfold render_member, dquote. cbn [fst snd].
  change (ascii_of_nat 34) with double_quote.
  now rewrite !append_assoc.
Qed.

Lemma read_member_render m rest :
  plain_member m = true -> separated rest ->
  read_member (render_member m ++ rest) = Some (m, rest).
Proof.
  destruct m as [key value]. unfold plain_member. cbn [fst snd].
  intros P S. apply andb_true_iff in P as [Pk Pv].
  rewrite render_member_app. cbn [read_member].
  rewrite Ascii.eqb_refl, (read_string_plain _ _ Pk).
  change (Ascii.eqb ":" ":") with true. cbv iota.
  now rewrite (read_value_render _ _ Pv S).
Qed.

Lemma read_members_render members m fuel rest :
  (length (m :: members) <= fuel)%nat ->
  forallb plain_member (m :: members) = true ->
  read_members fuel
    (String.concat "," (map render_member (m :: members)) ++ String "}" rest)
  = Some (m :: members, rest).
Proof.
  revert m fuel. induction members as [|m' members IH]; intros m fuel L P;
    (destruct fuel as [|fuel]; [cbn in L; lia|]);
    cbn [forallb] in P; apply andb_true_iff in P as [Pm P'].
  - cbn [map String.concat read_members].
    rewrite (read_member_render _ _ Pm)
      by (exists "}"%char, rest; split; [reflexivity|now right]).
    change (Ascii.eqb "}" ",") with false.
    now change (Ascii.eqb "}" "}") with true.
  - change (map render_member (m :: m' :: members))
      with (render_member m :: render_member m' :: map render_member members).
    rewrite concat_cons2, !append_assoc.
    change ("," ++ String.concat "," (render_member m' :: map render_member members)
            ++ String "}" rest)
      with (String "," (String.concat "," (map render_member (m' :: members))
                        ++ String "}" rest)).
    cbn [read_members].
    rewrite (read_member_render _ _ Pm)
      by (eexists ","%char, _; split; [reflexivity|now left]).
    change (Ascii.eqb "," ",") with true. cbv iota.
    rewrite IH; [reflexivity| cbn [length] in *; lia | exact P'].
Qed.

Lemma render_member_length m : (1 <= String.length (render_member m))%nat.
Proof.
  destruct m as [key value].
  pose proof (render_member_app key value "") as E.
  rewrite append_nil_r in E. rewrite E. cbn [String.length]. lia.
Qed.

Lemma members_fit members rest :
  (length members
   <= String.length (String.concat "," (map render_member members) ++ rest))%nat.
Proof.
  induction members as [|m members IH]; [cbn [length]; lia|].
  destruct members as [|m' members].
  - cbn [map String.concat length]. rewrite string_length_append.
    pose proof (render_member_length m). lia.
  - change (map render_member (m :: m' :: members))
      with (render_member m :: render_member m' :: map render_member members).
    rewrite concat_cons2, !append_assoc, string_length_append.
    rewrite (string_length_append ",").
    pose proof (render_member_length m).
    change (render_member m' :: map render_member members)
      with (map render_member (m' :: members)).
    cbn [length] in *. cbn [String.length]. lia.
Qed.

(** What [render_object] writes reads back as the members written. *)
Lemma read_object_render members :
  forallb plain_member members = true ->
  read_object (render_object members) = Some members.
Proof.
  intros P. unfold render_object.
  rewrite append_cons, append_nil_l. cbn [read_object].
  change (Ascii.eqb "{" "{") with true. cbv iota.
  destruct members as [|m members]; [reflexivity|].
  change "}" with (String "}" "").
  assert (N : String.eqb
                (String.concat "," (map render_member (m :: members))
                 ++ String "}" "") (String "}" "") = false).
  { destruct (concat_head "," (render_member m) (map render_member members)
                (String "}" "")) as [tail H].
    change (render_member m :: map render_member members)
      with (map render_member (m :: members)) in H.
    destruct m as [key value]. rewrite H, render_member_app. reflexivity. }
  rewrite N, read_members_render; [reflexivity| |exact P].
  apply members_fit.
Qed.

End ReadBack.

(* ================================================================== *)
(** ** The report as text *)

Section ReportText.

Context `{engine : Engine}.

Local Open Scope string_scope.

Ltac run_report H :=
  unfold image_to_json_members in H;
  repeat match type of H with
         | (?o ≫= _) = Some _ =>
             let j := fresh "json" in
             let W := fresh "W" in
             destruct o as [j|] eqn:W;
             [cbn [mbind option_bind] in H | discriminate H]
         end;
  injection H as <-;
  repeat match goal with
         | W : put_if _ _ _ _ = Some _ |- _ =>
             apply put_if_written in W; destruct W as [-> ?]
         end.

Lemma forallb_plain_put json key value :
  forallb plain_member (put json key value)
  = forallb plain_member json && plain_member (key, value).
Proof. unfold put. rewrite forallb_app. cbn. now rewrite andb_true_r. Qed.

Lemma written_plain cond key value :
  plain key = true ->
  (forall v, value = Some v -> plain_value v = true) ->
  forallb plain_member (written cond key value) = true.
Proof.
  intros K V. unfold written. destruct cond; [|reflexivity].
  destruct value as [v|]; [|reflexivity].
  cbn. unfold plain_member. cbn [fst snd]. now rewrite K, (V v eq_refl).
Qed.

Lemma number_value_plain (read : option Z) v :
  JNumber <$> read = Some v -> plain_value v = true.
Proof. destruct read; cbn; intros [= <-]; reflexivity. Qed.

Lemma delay_value_plain image v :
  delay_value image = Some v -> plain_value v = true.
Proof.
  unfold delay_value. destruct (VIPS_VERSION_AT_LEAST 8 9 0).
  - destruct (get_array_int image "delay"); cbn; intros [= <-]; reflexivity.
  - destruct (get_int image "gif-delay"); cbn; intros [= <-]; reflexivity.
Qed.

(** The members written read back as they are when the strings among them
    are plain. *)
Lemma report_members_plain image image_type members :
  image_to_json_members image image_type = Some members ->
  (forall s, In s (report_strings image) -> plain s = true) ->
  forallb plain_member members = true.
Proof.
  intros H P.
  assert (P1 : plain (interpretation_nick (interpretation image)) = true)
    by (apply P; cbn; tauto).
  assert (P2 : plain (band_format_nick (format image)) = true)
    by (apply P; cbn; tauto).
  assert (P3 : forall v,
             JString <$> get_string image "jpeg-chroma-subsample" = Some v ->
             plain_value v = true).
  { intros v E. destruct (get_string image "jpeg-chroma-subsample") as [c|] eqn:G;
      cbn in E; [|discriminate]. injection E as <-. cbn. apply P.
    unfold report_strings. rewrite G. cbn. tauto. }
  assert (P0 : plain (image_type_id image_type) = true)
    by (destruct image_type; reflexivity).
  run_report H.
  repeat first [ rewrite forallb_plain_put | rewrite forallb_app ].
  unfold plain_member. cbn [fst snd plain_value]. rewrite P0, P1, P2.
  repeat (apply andb_true_intro; split); try reflexivity;
    apply written_plain; try reflexivity;
    first
      [ exact P3
      | apply delay_value_plain
      | apply number_value_plain
      | intros v [= <-]; reflexivity ].
Qed.

(** The text returned reads back as the members written. *)
Lemma image_to_json_read_back image image_type text :
  image_to_json image image_type = Some text ->
  (forall s, In s (report_strings image) -> plain s = true) ->
  exists members,
    image_to_json_members image image_type = Some members /\
    read_object text = Some members.
Proof.
  unfold image_to_json. intros H P.
  destruct (image_to_json_members image image_type) as [members|] eqn:M;
    cbn in H; [|discriminate]. injection H as <-.
  exists members. split; [reflexivity|].
  apply read_object_render. exact (report_members_plain _ _ _ M P).
Qed.


Lemma sublist_snoc_guarded (l k : list string) (cond : bool) (key : string) :
  l `sublist_of` k ->
  (l ++ if cond then [key] else [])%list `sublist_of` (k ++ [key])%list.
Proof.
  intros S. apply sublist_app; [exact S|].
  destruct cond; [reflexivity|apply sublist_nil_l].
Qed.

Lemma sublist_snoc (l k : list string) (key : string) :
  l `sublist_of` k -> (l ++ [key])%list `sublist_of` (k ++ [key])%list.
Proof. intros S. now apply sublist_app. Qed.

Lemma report_keys_in_order image image_type members :
  image_to_json_members image image_type = Some members ->
  member_keys members `sublist_of` all_keys.
Proof.
  intros H. run_report H.
  repeat first
    [ rewrite member_keys_put
    | rewrite member_keys_app_written by assumption ].
  change all_keys with
    (fold_left (fun acc key => (acc ++ [key])%list) all_keys []).
  cbn [fold_left all_keys].
  repeat first [ apply sublist_snoc_guarded | apply sublist_snoc ].
  reflexivity.
Qed.

(** X17. The members of the text [image_to_json] returns come in one fixed
    order, that of its statements: read as a JSON object, the text has the
    keys of [all_keys] in that order with the absent optional ones left
    out, and so between ten and eighteen members. *)
Theorem image_to_json_order image image_type text :
  image_to_json image image_type = Some text ->
  (forall s, In s (report_strings image) -> plain s = true) ->
  exists members,
    read_object text = Some members /\
    member_keys members `sublist_of` all_keys /\
    (10 <= length members <= 18)%nat.
Proof.
  intros T P.
  destruct (image_to_json_read_back _ _ _ T P) as (members & H & R).
  exists members. split; [exact R|].
  pose proof (report_keys_in_order _ _ _ H) as S.
  split; [exact S|]. split.
  - pose proof (report_required_keys _ _ _ H) as Q.
    pose proof (report_distinct_keys _ _ _ H) as D.
    apply distinct_keys_NoDup in D.
    assert (I : incl required_keys (member_keys members)).
    { intros key Hkey. apply key_in_In.
      rewrite forallb_forall in Q. exact (Q key Hkey). }
    assert (N : List.NoDup required_keys)
      by (apply distinct_keys_NoDup; reflexivity).
    pose proof (List.NoDup_incl_length N I) as L.
    unfold member_keys in L. rewrite length_map in L. exact L.
  - apply sublist_length in S. unfold member_keys in S.
    rewrite length_map in S. exact S.
Qed.

(** X20. The animation members of the text follow the engine version.  From
    libvips 8.9 on, [loop] and [delay] are the [loop] field and the [delay]
    array as they are; before, they are the [gif-loop] field and a single
    delay, ten times the [gif-delay] field, which counts hundredths of a
    second. *)
Theorem image_to_json_animation image image_type text :
  image_to_json image image_type = Some text ->
  (forall s, In s (report_strings image) -> plain s = true) ->
  exists members,
    read_object text = Some members /\
    (VIPS_VERSION_AT_LEAST 8 9 0 = true ->
     (forall delays,
         metadata image !! "delay" = Some (MetaArrayInt delays) ->
         lookup_member "delay" members = Some (JArray delays)) /\
     (forall count,
         metadata image !! "loop" = Some (MetaInt count) ->
         lookup_member "loop" members = Some (JNumber count))) /\
    (VIPS_VERSION_AT_LEAST 8 9 0 = false ->
     (forall delay,
         metadata image !! "gif-delay" = Some (MetaInt delay) ->
         in_int (delay * 10) ->
         lookup_member "delay" members = Some (JArray [delay * 10])) /\
     (forall count,
         metadata image !! "gif-loop" = Some (MetaInt count) ->
         lookup_member "loop" members = Some (JNumber count))).
Proof.
  intros T P.
  destruct (image_to_json_read_back _ _ _ T P) as (members & H & R).
  exists members. split; [exact R|].
  assert (D : lookup_member "delay" members = delay_value image).
  { apply (report_optional_values _ _ _ _ _ H). cbn. tauto. }
  assert (L : lookup_member "loop" members
              = JNumber <$> get_int image loop_field).
  { apply (report_optional_values _ _ _ _ _ H). cbn. tauto. }
  rewrite D, L. unfold delay_value, loop_field.
  split; intros V; rewrite V; split.
  - intros delays E. unfold get_array_int. now rewrite E.
  - intros count E. unfold get_int. now rewrite E.
  - intros delay E I. unfold get_int. rewrite E. cbn.
    unfold int_mul. now rewrite (wrap32_small _ I).
  - intros count E. unfold get_int. now rewrite E.
Qed.

End ReportText.

Lemma gif_4x6_strings_plain :
  forall s, In s (@report_strings (libvips 8 9 1) gif_4x6) -> plain s = true.
Proof.
  intros s H. vm_compute in H. destruct H as [<-|[<-|[]]]; reflexivity.
Qed.


Lemma image_to_json_order_witness :
  @image_to_json (libvips 8 9 1) gif_4x6 ImageType.Gif
  = Some (render_object gif_4x6_report) /\
  exists members,
    read_object (render_object gif_4x6_report) = Some members /\
    member_keys members `sublist_of` all_keys.
Proof.
  assert (T : @image_to_json (libvips 8 9 1) gif_4x6 ImageType.Gif
              = Some (render_object gif_4x6_report))
    by (vm_compute; reflexivity).
  split; [exact T|].
  destruct (@image_to_json_order (libvips 8 9 1) _ _ _ T
              gif_4x6_strings_plain) as (members & R & S & _).
  exists members. split; [exact R|exact S].
Defined.

Lemma image_to_json_animation_witness :
  @image_to_json (libvips 8 9 1) gif_4x6 ImageType.Gif
  = Some (render_object gif_4x6_report) /\
  @VIPS_VERSION_AT_LEAST (libvips 8 9 1) 8 9 0 = true /\
  metadata gif_4x6 !! "delay"%string = Some (MetaArrayInt [100; 40]) /\
  exists members,
    read_object (render_object gif_4x6_report) = Some members /\
    lookup_member "delay" members = Some (JArray [100; 40]).
Proof.
  assert (T : @image_to_json (libvips 8 9 1) gif_4x6 ImageType.Gif
              = Some (render_object gif_4x6_report))
    by (vm_compute; reflexivity).
  assert (V : @VIPS_VERSION_AT_LEAST (libvips 8 9 1) 8 9 0 = true)
    by reflexivity.
  assert (E : metadata gif_4x6 !! "delay"%string
              = Some (MetaArrayInt [100; 40])) by (vm_compute; reflexivity).
  split; [exact T|]. split; [exact V|]. split; [exact E|].
  destruct (@image_to_json_animation (libvips 8 9 1) _ _ _ T
              gif_4x6_strings_plain) as (members & R & A & _).
  exists members. split; [exact R|].
  exact (proj1 (A V) [100; 40] E).
Defined.

(** A string with a double quote in it is written as it is, and the text
    then reads as other members: the image has no [n-pages] field and the
    text has a [pages] member.  The condition on the strings cannot be
    dropped. *)
Example image_to_json_quoted_string :
  ~ field_present quoted_subsampling VIPS_META_N_PAGES /\
  (member_keys <$>
     (@image_to_json (libvips 8 9 1) quoted_subsampling ImageType.Jpeg
      ≫= read_object))
  = Some ["format"; "width"; "height"; "space"; "channels"; "depth";
          "chromaSubsampling"; "pages"; "x"; "isProgressive"; "hasProfile";
          "hasAlpha"; "orientation"]%string.
Proof.
  split; [|vm_compute; reflexivity].
  intros [v E]. vm_compute in E. discriminate E.
Qed.

(** A resolution whose density is no value of [int] is reported all the
    same, as the least [int]. *)
Example image_to_json_large_density :
  lookup_member "density"
    <$> @image_to_json_members (libvips 8 9 1)
          {| width := 1; height := 1;
             interpretation := VIPS_INTERPRETATION_sRGB;
             format := VIPS_FORMAT_UCHAR; xres := 0x1.2a05f2p+33%float;
             planes := [[0]]; metadata := ∅ |}
          ImageType.Jpeg
  = Some (Some (JNumber INT_MIN)).
Proof. vm_compute. reflexivity. Qed.
